(** * genji, package [document]: the type-coercing comparator of [compare.go]

    A shallow embedding of [compare] and of the six predicates built on it
    ([IsEqual], [IsNotEqual], [IsGreaterThan], [IsGreaterThanOrEqual],
    [IsLesserThan], [IsLesserThanOrEqual]), followed by the properties the
    specification states about them. *)

From Stdlib Require Import ZArith List Bool Strings.Byte Lia Floats.
Import ListNotations.
From Stdlib Require Strings.String Sorting.Permutation.
Import String.StringSyntax.

Local Open Scope Z_scope.

(** ** The value layer, as far as the comparator sees it *)

(** Modelled from the spec: the declaration of [ValueType] (value.go) is not
    among the sources.  Section 3 gives the closed set of tags; compare.go
    names [NullValue], [StringValue], [BytesValue] and [Uint64Value]. *)
Inductive ValueType : Set :=
| NullValue
| BoolValue
| Int8Value | Int16Value | Int32Value | Int64Value
| Uint8Value | Uint16Value | Uint32Value | Uint64Value
| Float64Value
| StringValue
| BytesValue.

(** The test [l.Type == r.Type] on tags. *)
Definition ValueType_eqb (a b : ValueType) : bool :=
  match a, b with
  | NullValue, NullValue | BoolValue, BoolValue
  | Int8Value, Int8Value | Int16Value, Int16Value
  | Int32Value, Int32Value | Int64Value, Int64Value
  | Uint8Value, Uint8Value | Uint16Value, Uint16Value
  | Uint32Value, Uint32Value | Uint64Value, Uint64Value
  | Float64Value, Float64Value
  | StringValue, StringValue | BytesValue, BytesValue => true
  | _, _ => false
  end.

(** Modelled from the spec: [ValueType.IsInteger] (value.go, not among the
    sources) is true for all signed and unsigned integer tags. *)
Definition IsInteger (t : ValueType) : bool :=
  match t with
  | Int8Value | Int16Value | Int32Value | Int64Value
  | Uint8Value | Uint16Value | Uint32Value | Uint64Value => true
  | _ => false
  end.

(** Modelled from the spec: [ValueType.IsNumber] (value.go, not among the
    sources) is true for the [IsInteger] tags plus Float64. *)
Definition IsNumber (t : ValueType) : bool :=
  IsInteger t || ValueType_eqb t Float64Value.

(** [Value]: a tag and its raw encoded payload.  The field [Type] of the
    source is spelled [Type_] here. *)
Record Value : Set := mkValue { Type_ : ValueType; Data : list byte }.

(** What [Value.Decode] hands back in its [interface{}]: the runtime value
    matching the tag. *)
Inductive native : Set :=
| NNil
| NBool (b : bool)
| NInt8 (i : Z) | NInt16 (i : Z) | NInt32 (i : Z) | NInt64 (i : Z)
| NUint8 (u : Z) | NUint16 (u : Z) | NUint32 (u : Z) | NUint64 (u : Z)
| NFloat64 (f : float)
| NString (s : list byte)
| NBytes (b : list byte).

(** The three decoders the comparator calls.  They live in value.go, which is
    not among the sources, so the comparator is parameterised by them; each
    returns Go's pair of a result and an error ([None] is [nil]). *)
Class ValueLayer (error : Type) : Type := {
  Decode : Value -> native * option error;
  DecodeToInt64 : Value -> Z * option error;
  DecodeToFloat64 : Value -> float * option error
}.

(** ** Go library functions used by the comparator *)

(** [math.MaxInt64]. *)
Definition MaxInt64 : Z := 9223372036854775807.

(** [bytes.Equal]. *)
Fixpoint bytes_Equal (a b : list byte) : bool :=
  match a, b with
  | [], [] => true
  | x :: a', y :: b' => Byte.eqb x y && bytes_Equal a' b'
  | _, _ => false
  end.

(** [bytes.Compare]: -1, 0 or +1, bytes compared as unsigned numbers. *)
Fixpoint bytes_Compare (a b : list byte) : Z :=
  match a, b with
  | [], [] => 0
  | [], _ :: _ => -1
  | _ :: _, [] => 1
  | x :: a', y :: b' =>
      match N.compare (Byte.to_N x) (Byte.to_N y) with
      | Lt => -1
      | Gt => 1
      | Eq => bytes_Compare a' b'
      end
  end.

(** Go's comparison operators on [float64]; [>] and [>=] are [<] and [<=]
    with the operands exchanged. *)
Definition float_eq (a b : float) : bool := (a =? b)%float.
Definition float_lt (a b : float) : bool := (a <? b)%float.
Definition float_le (a b : float) : bool := (a <=? b)%float.
Definition float_gt (a b : float) : bool := (b <? a)%float.
Definition float_ge (a b : float) : bool := (b <=? a)%float.

(** ** compare.go *)

(** [operator] is a [uint8] in the source; the package only ever passes the
    five constants below to [compare]. *)
Inductive operator : Set :=
| operatorEq
| operatorGt
| operatorGte
| operatorLt
| operatorLte.

(** How a call of one of the predicates ends: it returns Go's [(bool, error)],
    or the type assertion [.(uint64)] of [compare] panics. *)
Inductive outcome (error : Type) : Type :=
| Return (ok : bool) (err : option error)
| Panic.
Arguments Return {error} ok err.
Arguments Panic {error}.

(** The type assertion [v.(uint64)]. *)
Definition assert_uint64 (v : native) : option Z :=
  match v with
  | NUint64 u => Some u
  | _ => None
  end.

Section Comparator.
Context {error : Type} {VL : ValueLayer error}.

(** Lines 55-62: "deal with nil".  [None]: the rule does not apply. *)
Definition null_rule (op : operator) (l r : Value) : option (outcome error) :=
  if ValueType_eqb (Type_ l) NullValue || ValueType_eqb (Type_ r) NullValue then
    match op with
    | operatorEq | operatorGte | operatorLte =>
        Some (Return (ValueType_eqb (Type_ l) (Type_ r)) None)
    | operatorGt | operatorLt => Some (Return false None)
    end
  else None.

(** Lines 65-81: same type, or string and bytes. *)
Definition direct_rule (op : operator) (l r : Value) : option (outcome error) :=
  if ValueType_eqb (Type_ l) (Type_ r)
     || (ValueType_eqb (Type_ l) StringValue && ValueType_eqb (Type_ r) BytesValue)
     || (ValueType_eqb (Type_ r) StringValue && ValueType_eqb (Type_ l) BytesValue)
  then
    let ok :=
      match op with
      | operatorEq => bytes_Equal (Data l) (Data r)
      | operatorGt => bytes_Compare (Data l) (Data r) >? 0
      | operatorGte => bytes_Compare (Data l) (Data r) >=? 0
      | operatorLt => bytes_Compare (Data l) (Data r) <? 0
      | operatorLte => bytes_Compare (Data l) (Data r) <=? 0
      end in
    Some (Return ok None)
  else None.

(** Lines 86-117: a uint64 beyond [math.MaxInt64] settles every operator. *)
Definition uint64_rule (op : operator) (l r : Value) : option (outcome error) :=
  if ValueType_eqb (Type_ l) Uint64Value || ValueType_eqb (Type_ r) Uint64Value then
    let (lv, lerr) := Decode l in
    match lerr with
    | Some e => Some (Return false (Some e))
    | None =>
        let (rv, rerr) := Decode r in
        match rerr with
        | Some e => Some (Return false (Some e))
        | None =>
            let ui :=
              if ValueType_eqb (Type_ l) Uint64Value then assert_uint64 lv
              else if ValueType_eqb (Type_ r) Uint64Value then assert_uint64 rv
              else Some 0 in
            match ui with
            | None => Some Panic
            | Some ui =>
                if ui >? MaxInt64 then
                  match op with
                  | operatorEq => Some (Return false None)
                  | operatorGt | operatorGte =>
                      Some (Return (ValueType_eqb (Type_ l) Uint64Value) None)
                  | operatorLt =>
                      Some (Return (ValueType_eqb (Type_ r) Uint64Value) None)
                  | operatorLte =>
                      Some (Return (ValueType_eqb (Type_ r) Uint64Value) None)
                  end
                else None
            end
        end
    end
  else None.

(** Lines 120-147: integer OP integer. *)
Definition integer_rule (op : operator) (l r : Value) : option (outcome error) :=
  if IsInteger (Type_ l) && IsInteger (Type_ r) then
    let (ai, lerr) := DecodeToInt64 l in
    match lerr with
    | Some e => Some (Return false (Some e))
    | None =>
        let (bi, rerr) := DecodeToInt64 r in
        match rerr with
        | Some e => Some (Return false (Some e))
        | None =>
            let ok :=
              match op with
              | operatorEq => ai =? bi
              | operatorGt => ai >? bi
              | operatorGte => ai >=? bi
              | operatorLt => ai <? bi
              | operatorLte => ai <=? bi
              end in
            Some (Return ok None)
        end
    end
  else None.

(** Lines 150-177: number OP number. *)
Definition number_rule (op : operator) (l r : Value) : option (outcome error) :=
  if IsNumber (Type_ l) && IsNumber (Type_ r) then
    let (af, lerr) := DecodeToFloat64 l in
    match lerr with
    | Some e => Some (Return false (Some e))
    | None =>
        let (bf, rerr) := DecodeToFloat64 r in
        match rerr with
        | Some e => Some (Return false (Some e))
        | None =>
            let ok :=
              match op with
              | operatorEq => float_eq af bf
              | operatorGt => float_gt af bf
              | operatorGte => float_ge af bf
              | operatorLt => float_lt af bf
              | operatorLte => float_le af bf
              end in
            Some (Return ok None)
        end
    end
  else None.

(** Lines 119-180: what is left of [compare] once the uint64 block is
    passed. *)
Definition compare_decoded (op : operator) (l r : Value) : outcome error :=
  match integer_rule op l r with
  | Some res => res
  | None =>
      match number_rule op l r with
      | Some res => res
      | None => Return false None
      end
  end.

(** [compare]: the first rule that applies returns. *)
Definition compare (op : operator) (l r : Value) : outcome error :=
  match null_rule op l r with
  | Some res => res
  | None =>
      match direct_rule op l r with
      | Some res => res
      | None =>
          match uint64_rule op l r with
          | Some res => res
          | None => compare_decoded op l r
          end
      end
  end.

Definition IsEqual (v other : Value) : outcome error :=
  compare operatorEq v other.

Definition IsNotEqual (v other : Value) : outcome error :=
  match IsEqual v other with
  | Return ok (Some err) => Return ok (Some err)
  | Return ok None => Return (negb ok) None
  | Panic => Panic
  end.

Definition IsGreaterThan (v other : Value) : outcome error :=
  compare operatorGt v other.

Definition IsGreaterThanOrEqual (v other : Value) : outcome error :=
  compare operatorGte v other.

Definition IsLesserThan (v other : Value) : outcome error :=
  compare operatorLt v other.

Definition IsLesserThanOrEqual (v other : Value) : outcome error :=
  compare operatorLte v other.

End Comparator.

(** ** One value layer, to run the comparator on concrete values *)

(** Modelled from the spec: value.go, which holds [Decode], [DecodeToInt64]
    and [DecodeToFloat64], is not among the sources.  Section 6 states their
    contracts and leaves the encoding open.  Every theorem below is proved
    for an arbitrary [ValueLayer]; [Codec] is one layer that honours the
    contracts (fixed-width big-endian integers, two's complement for the
    signed ones, IEEE-754 bits for Float64, raw content for String and
    Bytes), so that the theorems can be applied to concrete values. *)
Module Codec.

Inductive DecodeError : Set :=
| ErrMalformed (t : ValueType)
| ErrNotInteger (t : ValueType)
| ErrNotNumber (t : ValueType).

(** Big-endian reading of a byte sequence. *)
Definition be_uint (bs : list byte) : Z :=
  fold_left (fun acc b => acc * 256 + Z.of_N (Byte.to_N b)) bs 0.

(** Two's complement reading on [w] bits. *)
Definition to_signed (w u : Z) : Z :=
  if u <? 2 ^ (w - 1) then u else u - 2 ^ w.

(** [math.Float64frombits]. *)
Definition Float64frombits (b : Z) : float :=
  let s := Z.testbit b 63 in
  let e := Z.land (Z.shiftr b 52) 2047 in
  let m := Z.land b (2 ^ 52 - 1) in
  SF2Prim
    (if e =? 2047 then (if m =? 0 then S754_infinity s else S754_nan)
     else if e =? 0 then
            match m with
            | Zpos p => S754_finite s p (-1074)
            | _ => S754_zero s
            end
          else
            match m + 2 ^ 52 with
            | Zpos p => S754_finite s p (e - 1075)
            | _ => S754_zero s
            end).

(** Conversion [float64(i)] of an integer, rounding to nearest even. *)
Definition float_of_Z (i : Z) : float :=
  SF2Prim (binary_normalize prec emax i 0 false).

(** Width in bytes of the fixed-width tags. *)
Definition width (t : ValueType) : option nat :=
  match t with
  | BoolValue | Int8Value | Uint8Value => Some 1%nat
  | Int16Value | Uint16Value => Some 2%nat
  | Int32Value | Uint32Value => Some 4%nat
  | Int64Value | Uint64Value | Float64Value => Some 8%nat
  | NullValue => Some 0%nat
  | StringValue | BytesValue => None
  end.

Definition well_sized (v : Value) : bool :=
  match width (Type_ v) with
  | Some w => Nat.eqb (length (Data v)) w
  | None => true
  end.

Definition decode (v : Value) : native * option DecodeError :=
  if well_sized v then
    let u := be_uint (Data v) in
    (match Type_ v with
     | NullValue => NNil
     | BoolValue => NBool (negb (u =? 0))
     | Int8Value => NInt8 (to_signed 8 u)
     | Int16Value => NInt16 (to_signed 16 u)
     | Int32Value => NInt32 (to_signed 32 u)
     | Int64Value => NInt64 (to_signed 64 u)
     | Uint8Value => NUint8 u
     | Uint16Value => NUint16 u
     | Uint32Value => NUint32 u
     | Uint64Value => NUint64 u
     | Float64Value => NFloat64 (Float64frombits u)
     | StringValue => NString (Data v)
     | BytesValue => NBytes (Data v)
     end, None)
  else (NNil, Some (ErrMalformed (Type_ v))).

Definition decodeToInt64 (v : Value) : Z * option DecodeError :=
  match decode v with
  | (_, Some e) => (0, Some e)
  | (NInt8 i, None) | (NInt16 i, None) | (NInt32 i, None) | (NInt64 i, None) =>
      (i, None)
  | (NUint8 u, None) | (NUint16 u, None) | (NUint32 u, None) => (u, None)
  | (NUint64 u, None) => (to_signed 64 u, None)
  | (_, None) => (0, Some (ErrNotInteger (Type_ v)))
  end.

Definition decodeToFloat64 (v : Value) : float * option DecodeError :=
  match decode v with
  | (_, Some e) => (zero, Some e)
  | (NFloat64 f, None) => (f, None)
  | (NInt8 i, None) | (NInt16 i, None) | (NInt32 i, None) | (NInt64 i, None) =>
      (float_of_Z i, None)
  | (NUint8 u, None) | (NUint16 u, None) | (NUint32 u, None)
  | (NUint64 u, None) => (float_of_Z u, None)
  | (_, None) => (zero, Some (ErrNotNumber (Type_ v)))
  end.

#[export] Instance layer : ValueLayer DecodeError := {
  Decode := decode;
  DecodeToInt64 := decodeToInt64;
  DecodeToFloat64 := decodeToFloat64
}.

(** Constructors of values, big-endian on [n] bytes. *)
Fixpoint be_bytes (n : nat) (u : Z) : list byte :=
  match n with
  | O => []
  | S n' =>
      be_bytes n' (u / 256)
        ++ [match Byte.of_N (Z.to_N (u mod 256)) with Some b => b | None => x00 end]
  end.

Definition Null : Value := mkValue NullValue [].
Definition Bool (b : bool) : Value := mkValue BoolValue [if b then x01 else x00].
Definition Int8 (i : Z) : Value := mkValue Int8Value (be_bytes 1 (i mod 2 ^ 8)).
Definition Int32 (i : Z) : Value := mkValue Int32Value (be_bytes 4 (i mod 2 ^ 32)).
Definition Int64 (i : Z) : Value := mkValue Int64Value (be_bytes 8 (i mod 2 ^ 64)).
Definition Uint64 (u : Z) : Value := mkValue Uint64Value (be_bytes 8 u).
Definition Float64bits (bits : Z) : Value := mkValue Float64Value (be_bytes 8 bits).
Definition String (s : list byte) : Value := mkValue StringValue s.
Definition Bytes (s : list byte) : Value := mkValue BytesValue s.

End Codec.


(** ** Vocabulary of the specification *)

(** A predicate call decides [P]: it returns without error, and its boolean
    is [true] exactly when [P] holds. *)
Definition decides {error : Type} (o : outcome error) (P : Prop) : Prop :=
  exists b : bool, o = Return b None /\ (b = true <-> P).

(** Standard lexicographic order on byte sequences: a proper prefix comes
    first; otherwise the first differing byte decides, bytes being unsigned. *)
Inductive lex_lt : list byte -> list byte -> Prop :=
| lex_lt_prefix : forall y b, lex_lt [] (y :: b)
| lex_lt_head : forall x y a b,
    (Byte.to_N x < Byte.to_N y)%N -> lex_lt (x :: a) (y :: b)
| lex_lt_tail : forall x a b, lex_lt a b -> lex_lt (x :: a) (x :: b).

Definition lex_le (a b : list byte) : Prop := lex_lt a b \/ a = b.

(** Ordinary comparison of signed integers, per operator. *)
Definition int_holds (op : operator) (a b : Z) : Prop :=
  match op with
  | operatorEq => a = b
  | operatorGt => a > b
  | operatorGte => a >= b
  | operatorLt => a < b
  | operatorLte => a <= b
  end.

(** IEEE-754 comparison, per operator: two floats stand in exactly one of
    the four relations less, equal, greater, unordered ([SFcompare] gives
    [None] for unordered), and an operator holds in the relations it names. *)
Definition ieee_holds (op : operator) (a b : float) : Prop :=
  let c := SFcompare (Prim2SF a) (Prim2SF b) in
  match op with
  | operatorEq => c = Some Eq
  | operatorGt => c = Some Gt
  | operatorGte => c = Some Gt \/ c = Some Eq
  | operatorLt => c = Some Lt
  | operatorLte => c = Some Lt \/ c = Some Eq
  end.

(** The pair is a String and a Bytes, in either order. *)
Definition string_bytes_pair (l r : Value) : Prop :=
  (Type_ l = StringValue /\ Type_ r = BytesValue)
  \/ (Type_ l = BytesValue /\ Type_ r = StringValue).


(** Exactly one operand of the pair is Null. *)
Definition one_null (l r : Value) : Prop :=
  (Type_ l = NullValue /\ Type_ r <> NullValue)
  \/ (Type_ l <> NullValue /\ Type_ r = NullValue).

(** How two operands stand to each other once [compare] has looked at them:
    the left one is less, equal or greater, or the two are unordered. *)
Inductive verdict : Set := VLess | VEqual | VGreater | VUnordered.

(** The operators that hold under a verdict. *)
Definition op_holds (op : operator) (v : verdict) : bool :=
  match op, v with
  | operatorEq, VEqual
  | operatorGt, VGreater
  | operatorGte, (VGreater | VEqual)
  | operatorLt, VLess
  | operatorLte, (VLess | VEqual) => true
  | _, _ => false
  end.

Section Vocabulary.
Context {error : Type} {VL : ValueLayer error}.

(** The uint64 block of [compare] takes no decision on [l], [r]: neither is
    a Uint64, or both decode and the Uint64 operand (the left one if both
    are) holds a value within the signed 64-bit range. *)
Definition no_overflow_decision (l r : Value) : Prop :=
  (Type_ l <> Uint64Value /\ Type_ r <> Uint64Value)
  \/ exists lv rv ui,
      Decode l = (lv, None) /\ Decode r = (rv, None)
      /\ ((Type_ l = Uint64Value /\ lv = NUint64 ui)
          \/ (Type_ l <> Uint64Value /\ Type_ r = Uint64Value /\ rv = NUint64 ui))
      /\ ui <= MaxInt64.

(** The pair reaches the last line of [compare]: no rule before it applies. *)
Definition fallback_case (l r : Value) : Prop :=
  Type_ l <> NullValue /\ Type_ r <> NullValue
  /\ Type_ l <> Type_ r /\ ~ string_bytes_pair l r
  /\ ~ (IsNumber (Type_ l) = true /\ IsNumber (Type_ r) = true)
  /\ no_overflow_decision l r.

(** All six predicates return without error on the pair. *)
Definition comparable (a b : Value) : Prop :=
  forall op, exists x, compare op a b = Return x None.

(** An operand of the pair carries a NaN: its float decoding is a NaN. *)
Definition nan_operand (a b : Value) : Prop :=
  exists f, (DecodeToFloat64 a = (f, None) \/ DecodeToFloat64 b = (f, None))
            /\ is_nan f = true.


End Vocabulary.

(** The operator that asks the same question with the operands exchanged. *)
Definition converse (op : operator) : operator :=
  match op with
  | operatorEq => operatorEq
  | operatorGt => operatorLt
  | operatorGte => operatorLte
  | operatorLt => operatorGt
  | operatorLte => operatorGte
  end.

(** The pair takes the direct rule's test: equal tags, or a String and a
    Bytes. *)
Definition directly_comparable (l r : Value) : Prop :=
  Type_ l = Type_ r \/ string_bytes_pair l r.

(** ** generator.go *)

Module Generator.

Local Open Scope string_scope.

(** How a call ends: it returns, or it panics (nil dereference, index out of
    range). *)
Inductive go (A : Type) : Type :=
| Returns (a : A)
| Panics.
Arguments Returns {A} a.
Arguments Panics {A}.

Module Struct.
Record t : Set := mk { Name : String.string }.
End Struct.

Module Config.
Record t (reader : Type) : Type := mk {
  Sources : list reader;
  Structs : list Struct.t;
  Results : list String.string
}.
Arguments mk {reader} Sources Structs Results.
Arguments Sources {reader} t.
Arguments Structs {reader} t.
Arguments Results {reader} t.
End Config.

Record genContext (recordContext : Type) : Type := mkGenContext {
  Pkg : String.string;
  Imports : list String.string;
  Records : list recordContext;
  Results : list recordContext
}.
Arguments mkGenContext {recordContext} Pkg Imports Records Results.
Arguments Pkg {recordContext} g.
Arguments Imports {recordContext} g.
Arguments Records {recordContext} g.
Arguments Results {recordContext} g.

(** [map[string]int]: keys are unique; the order of the pairs is not
    observable, iteration goes through [range_keys] below. *)
Definition gomap : Set := list (String.string * Z).

(** [m[k]++]; a missing key counts from zero. *)
Fixpoint incr (m : gomap) (k : String.string) : gomap :=
  match m with
  | [] => [(k, 1)]
  | (k', n) :: m' =>
      if String.eqb k' k then (k', n + 1) :: m' else (k', n) :: incr m' k
  end.

Definition keys (m : gomap) : list String.string := map fst m.

(** [s[i] = x] on a slice; [None] when [i] is out of range. *)
Fixpoint slice_set {A : Type} (s : list A) (i : nat) (x : A) : option (list A) :=
  match s, i with
  | [], _ => None
  | _ :: s', O => Some (x :: s')
  | y :: s', S i' =>
      match slice_set s' i' x with
      | Some t => Some (y :: t)
      | None => None
      end
  end.

Section Generator.

(** What generator.go takes from outside: readers ([io.Reader]) and the state
    behind them, the writer ([io.Writer]), parsed files ([ast.File]) with the
    name of their package clause, [recordContext] with its zero value and its
    method [lookupRecord] (in another file of the package, not among the
    sources), [errors.New], the order in which [range] goes through a map,
    the template [t] and [imports.Process]. *)
Variables reader world writer ast_File error recordContext : Type.
Variable ReadFrom : reader -> world -> String.string * option error * world.
Variable ParseFile : String.string -> option ast_File * option error.
Variable File_Name : ast_File -> String.string.
Variable zero_recordContext : recordContext.
Variable lookupRecord :
  recordContext -> option ast_File -> String.string ->
  recordContext * bool * option error.
Variable errors_New : String.string -> error.
Variable range_keys : gomap -> list String.string.
Variable ExecuteTemplate : genContext recordContext -> list byte * option error.
Variable imports_Process : list byte -> list byte * option error.
Variable Write : writer -> list byte -> writer * option error.

(** Lines 127-143, the loop of [readSources]: [afs[i] = af] for each source
    in turn; the first failure returns a nil slice and the error. *)
Fixpoint readSources_loop (i : nat) (srcs : list reader)
    (afs : list (option ast_File)) (w : world)
  : go (list (option ast_File) * option error * world) :=
  match srcs with
  | [] => Returns (afs, None, w)
  | r :: rest =>
      let '(content, err, w1) := ReadFrom r w in
      match err with
      | Some e => Returns ([], Some e, w1)
      | None =>
          let (af, perr) := ParseFile content in
          match perr with
          | Some e => Returns ([], Some e, w1)
          | None =>
              match slice_set afs i af with
              | Some afs' => readSources_loop (S i) rest afs' w1
              | None => Panics
              end
          end
      end
  end.

Definition readSources (srcs : list reader) (w : world)
  : go (list (option ast_File) * option error * world) :=
  readSources_loop 0 srcs (repeat None (length srcs)) w.

(** Lines 156-163, the loop of [readPackage], [pkg] being the name seen last. *)
Fixpoint readPackage_loop (pkg : String.string) (srcs : list (option ast_File))
  : go (String.string * option error) :=
  match srcs with
  | [] => Returns (pkg, None)
  | None :: _ => Panics
  | Some src :: rest =>
      if negb (String.eqb pkg "") && negb (String.eqb pkg (File_Name src)) then
        Returns (pkg, Some (errors_New "input files must belong to the same package"))
      else readPackage_loop (File_Name src) rest
  end.

Definition readPackage (g : genContext recordContext)
    (srcs : list (option ast_File))
  : go (genContext recordContext * option error) :=
  match readPackage_loop "" srcs with
  | Panics => Panics
  | Returns (_, Some e) => Returns (g, Some e)
  | Returns (pkg, None) =>
      Returns (mkGenContext pkg (Imports g) (Records g) (Results g), None)
  end.

(** Lines 172-180, the inner loop of [readTargets] on one record: the
    sources are tried in turn until [lookupRecord] fails or finds the name. *)
Fixpoint lookupSources (rc : recordContext) (srcs : list (option ast_File))
    (name : String.string) : recordContext * option error :=
  match srcs with
  | [] => (rc, None)
  | src :: rest =>
      let '(rc', ok, err) := lookupRecord rc src name in
      match err with
      | Some e => (rc', Some e)
      | None => if ok then (rc', None) else lookupSources rc' rest name
      end
  end.

(** The outer loop of [readTargets], from index [i] on: [recs[i]] is looked
    up in place under the [i]-th name. *)
Fixpoint lookupTargets (srcs : list (option ast_File))
    (names : list String.string) (i : nat) (recs : list recordContext)
  : go (list recordContext * option error) :=
  match names with
  | [] => Returns (recs, None)
  | name :: rest =>
      match nth_error recs i with
      | None => Panics
      | Some rc =>
          let (rc', err) := lookupSources rc srcs name in
          match slice_set recs i rc' with
          | None => Panics
          | Some recs' =>
              match err with
              | Some e => Returns (recs', Some e)
              | None => lookupTargets srcs rest (S i) recs'
              end
          end
      end
  end.

Definition readTargets (g : genContext recordContext)
    (srcs : list (option ast_File)) (cfg : Config.t reader)
  : go (genContext recordContext * option error) :=
  let records := repeat zero_recordContext (length (Config.Structs cfg)) in
  match lookupTargets srcs (map Struct.Name (Config.Structs cfg)) 0 records with
  | Panics => Panics
  | Returns (records', Some e) =>
      Returns (mkGenContext (Pkg g) (Imports g) records' (Results g), Some e)
  | Returns (records', None) =>
      let results := repeat zero_recordContext (length (Config.Results cfg)) in
      match lookupTargets srcs (Config.Results cfg) 0 results with
      | Panics => Panics
      | Returns (results', err) =>
          Returns (mkGenContext (Pkg g) (Imports g) records' results', err)
      end
  end.

(** Lines 200-214 of [selectImports]: the map of the packages to import. *)
Definition imports_map (g : genContext recordContext) : gomap :=
  let m : gomap := [] in
  let m :=
    if (0 <? length (Records g))%nat then
      incr (incr (incr (incr (incr (incr (incr m
        "errors")
        "github.com/asdine/genji")
        "github.com/asdine/genji/field")
        "github.com/asdine/genji/query")
        "github.com/asdine/genji/record")
        "github.com/asdine/genji/table")
        "github.com/asdine/genji/index"
    else m in
  if (0 <? length (Results g))%nat then
    incr (incr m "github.com/asdine/genji/record") "github.com/asdine/genji/table"
  else m.

(** [selectImports]: the keys of the map, appended in the order of [range]. *)
Definition selectImports (g : genContext recordContext)
  : genContext recordContext :=
  let imports :=
    fold_left (fun acc k => acc ++ [k]) (range_keys (imports_map g)) [] in
  mkGenContext (Pkg g) imports (Records g) (Results g).

(** [Generate]: the writer after the call and the error returned, with the
    state left behind the readers. *)
Definition Generate (w : writer) (cfg : Config.t reader) (wd : world)
  : go (writer * option error * world) :=
  let gctx : genContext recordContext := mkGenContext "" [] [] [] in
  match readSources (Config.Sources cfg) wd with
  | Panics => Panics
  | Returns (_, Some e, wd') => Returns (w, Some e, wd')
  | Returns (srcs, None, wd') =>
      match readPackage gctx srcs with
      | Panics => Panics
      | Returns (_, Some e) => Returns (w, Some e, wd')
      | Returns (gctx, None) =>
          match readTargets gctx srcs cfg with
          | Panics => Panics
          | Returns (_, Some e) => Returns (w, Some e, wd')
          | Returns (gctx, None) =>
              let gctx := selectImports gctx in
              let (buf, err) := ExecuteTemplate gctx in
              match err with
              | Some e => Returns (w, Some e, wd')
              | None =>
                  let (output, err) := imports_Process buf in
                  match err with
                  | Some e => Returns (w, Some e, wd')
                  | None =>
                      let (w', err) := Write w output in
                      Returns (w', err, wd')
                  end
              end
          end
      end
  end.

(** The sources read and parsed one after the other, without the slice:
    the files so far, or the first failure.  [readSources] is shown below to
    compute this. *)
Fixpoint read_all (srcs : list reader) (w : world)
  : list (option ast_File) * option error * world :=
  match srcs with
  | [] => ([], None, w)
  | r :: rest =>
      let '(content, err, w1) := ReadFrom r w in
      match err with
      | Some e => ([], Some e, w1)
      | None =>
          let (af, perr) := ParseFile content in
          match perr with
          | Some e => ([], Some e, w1)
          | None =>
              let '(afs, err', w2) := read_all rest w1 in
              match err' with
              | Some e => ([], Some e, w2)
              | None => (af :: afs, None, w2)
              end
          end
      end
  end.

(** The records looked up one name after the other, each from the zero
    record, up to and including the first one that fails.  [readTargets] is
    shown below to fill its slices with this. *)
Fixpoint lookup_all (srcs : list (option ast_File)) (names : list String.string)
  : list recordContext * option error :=
  match names with
  | [] => ([], None)
  | name :: rest =>
      let (rc, err) := lookupSources zero_recordContext srcs name in
      match err with
      | Some e => ([rc], Some e)
      | None =>
          let (rcs, err') := lookup_all srcs rest in
          (rc :: rcs, err')
      end
  end.

(** The record a name gives when looked up through the sources from the
    zero record, and the fact that this lookup returns no error. *)
Definition record_of (srcs : list (option ast_File)) (name : String.string)
  : recordContext :=
  fst (lookupSources zero_recordContext srcs name).

Definition found_or_absent (srcs : list (option ast_File))
    (name : String.string) : Prop :=
  snd (lookupSources zero_recordContext srcs name) = None.

End Generator.

Arguments readSources_loop {reader world ast_File error} ReadFrom ParseFile
  i srcs afs w.
Arguments readSources {reader world ast_File error} ReadFrom ParseFile srcs w.
Arguments read_all {reader world ast_File error} ReadFrom ParseFile srcs w.
Arguments readPackage_loop {ast_File error} File_Name errors_New pkg srcs.
Arguments readPackage {ast_File error recordContext} File_Name errors_New
  g srcs.
Arguments lookupSources {ast_File error recordContext} lookupRecord
  rc srcs name.
Arguments lookupTargets {ast_File error recordContext} lookupRecord
  srcs names i recs.
Arguments lookup_all {ast_File error recordContext} zero_recordContext
  lookupRecord srcs names.
Arguments record_of {ast_File error recordContext} zero_recordContext
  lookupRecord srcs name.
Arguments found_or_absent {ast_File error recordContext} zero_recordContext
  lookupRecord srcs name.
Arguments readTargets {reader ast_File error recordContext} zero_recordContext
  lookupRecord g srcs cfg.
Arguments imports_map {recordContext} g.
Arguments selectImports {recordContext} range_keys g.
Arguments Generate {reader world writer ast_File error recordContext}
  ReadFrom ParseFile File_Name zero_recordContext lookupRecord errors_New
  range_keys ExecuteTemplate imports_Process Write w cfg wd.

(** Stand-ins for what surrounds generator.go, to run its functions on
    concrete inputs.  A reader yields its text or fails, and each read is
    counted; a text parses to a file whose package name is the text, the
    empty text being a syntax error; a name is found in a file when it is
    the name of its package; [range] goes through a map backwards; the
    template prints one dot per import; formatting changes nothing; the
    writer keeps what it is given. *)
Module Stub.

Definition reader : Set := option String.string.
Definition world : Set := nat.
Definition writer : Set := list (list byte).
Definition ast_File : Set := String.string.
Definition error : Set := String.string.
Definition recordContext : Set := option String.string.

Definition ReadFrom (r : reader) (w : world)
  : String.string * option error * world :=
  match r with
  | Some content => (content, None, S w)
  | None => ("", Some "read failed", S w)
  end.

Definition ParseFile (content : String.string) : option ast_File * option error :=
  if String.eqb content "" then (None, Some "expected 'package'")
  else (Some content, None).

Definition File_Name (f : ast_File) : String.string := f.

Definition lookupRecord (rc : recordContext) (src : option ast_File)
    (name : String.string) : recordContext * bool * option error :=
  match src with
  | Some f => if String.eqb f name then (Some name, true, None)
              else (rc, false, None)
  | None => (rc, false, Some "nil file")
  end.

(** A lookup that finds nothing and never fails. *)
Definition lookupNothing (rc : recordContext) (src : option ast_File)
    (name : String.string) : recordContext * bool * option error :=
  (rc, false, None).

Definition zero : recordContext := None.

Definition errors_New (msg : String.string) : error := msg.

Definition range_keys (m : gomap) : list String.string := rev (keys m).

Definition ExecuteTemplate (g : genContext recordContext)
  : list byte * option error :=
  (map (fun _ => x2e) (Imports g), None).

Definition imports_Process (src : list byte) : list byte * option error :=
  (src, None).

Definition Write (w : writer) (p : list byte) : writer * option error :=
  (w ++ [p], None).

End Stub.

End Generator.


(** ** Auxiliary facts *)

Lemma ValueType_eqb_eq (a b : ValueType) : ValueType_eqb a b = true <-> a = b.
Proof.
  split.
  - destruct a, b; simpl; intro H; try reflexivity; discriminate H.
  - intros ->. destruct b; reflexivity.
Qed.

Lemma ValueType_eqb_neq (a b : ValueType) : ValueType_eqb a b = false <-> a <> b.
Proof.
  rewrite <- ValueType_eqb_eq. destruct (ValueType_eqb a b); split; congruence.
Qed.

Lemma ValueType_eqb_refl (a : ValueType) : ValueType_eqb a a = true.
Proof. now apply ValueType_eqb_eq. Qed.

Lemma ValueType_eqb_sym (a b : ValueType) : ValueType_eqb a b = ValueType_eqb b a.
Proof. destruct a, b; reflexivity. Qed.

Lemma byte_to_N_inj (x y : byte) : Byte.to_N x = Byte.to_N y -> x = y.
Proof.
  intro H. pose proof (Byte.of_to_N x) as Hx. rewrite H, Byte.of_to_N in Hx.
  congruence.
Qed.

Lemma bytes_Equal_eq (a b : list byte) : bytes_Equal a b = true <-> a = b.
Proof.
  revert b. induction a as [|x a IH]; intros [|y b]; simpl; split; intro H;
    try reflexivity; try discriminate H.
  - apply andb_true_iff in H as [Hxy Hab].
    apply Byte.byte_dec_bl in Hxy. apply IH in Hab. now subst.
  - injection H as -> ->. rewrite Byte.byte_dec_lb by reflexivity.
    now apply IH.
Qed.

Lemma bytes_Compare_range (a b : list byte) :
  bytes_Compare a b = -1 \/ bytes_Compare a b = 0 \/ bytes_Compare a b = 1.
Proof.
  revert b. induction a as [|x a IH]; intros [|y b]; simpl; auto.
  destruct (N.compare (Byte.to_N x) (Byte.to_N y)); auto.
Qed.

Lemma bytes_Compare_eq (a b : list byte) : bytes_Compare a b = 0 <-> a = b.
Proof.
  revert b. induction a as [|x a IH]; intros [|y b]; simpl; split; intro H;
    try reflexivity; try discriminate H.
  - destruct (N.compare_spec (Byte.to_N x) (Byte.to_N y)) as [E|E|E];
      try discriminate H.
    apply byte_to_N_inj in E. apply IH in H. now subst.
  - injection H as -> ->. rewrite N.compare_refl. now apply IH.
Qed.

Lemma bytes_Compare_lt (a b : list byte) : bytes_Compare a b < 0 <-> lex_lt a b.
Proof.
  revert b. induction a as [|x a IH]; intros [|y b]; simpl.
  - split; [lia | inversion 1].
  - split; [constructor | lia].
  - split; [lia | inversion 1].
  - destruct (N.compare_spec (Byte.to_N x) (Byte.to_N y)) as [E|E|E].
    + apply byte_to_N_inj in E. subst y. rewrite IH. split.
      * now constructor.
      * inversion 1; subst; [lia | assumption].
    + split; [now constructor | lia].
    + split; [lia |]. inversion 1; subst; lia.
Qed.

Lemma bytes_Compare_antisym (a b : list byte) :
  bytes_Compare b a = - bytes_Compare a b.
Proof.
  revert b. induction a as [|x a IH]; intros [|y b]; simpl; try reflexivity.
  rewrite (N.compare_antisym (Byte.to_N x) (Byte.to_N y)).
  destruct (N.compare (Byte.to_N x) (Byte.to_N y)); simpl; auto.
Qed.

Lemma bytes_Compare_gt (a b : list byte) : bytes_Compare a b > 0 <-> lex_lt b a.
Proof.
  rewrite <- bytes_Compare_lt, (bytes_Compare_antisym a b). lia.
Qed.

Lemma bytes_Equal_Compare (a b : list byte) :
  bytes_Equal a b = (bytes_Compare a b =? 0).
Proof.
  apply eq_true_iff_eq. now rewrite bytes_Equal_eq, Z.eqb_eq, bytes_Compare_eq.
Qed.

(** *** IEEE-754 comparison *)

Lemma SFcompare_antisym (x y : spec_float) :
  SFcompare y x = option_map CompOpp (SFcompare x y).
Proof.
  destruct x as [sx|sx| |sx mx ex], y as [sy|sy| |sy my ey]; simpl;
    try reflexivity;
    try (destruct sx; reflexivity); try (destruct sy; reflexivity);
    try (destruct sx, sy; reflexivity).
  destruct sx, sy; simpl; try reflexivity;
    rewrite (Z.compare_antisym ex ey);
    destruct (Z.compare ex ey); simpl; try reflexivity;
    rewrite (Pos.compare_cont_antisym mx my Eq); simpl;
    destruct (Pos.compare_cont Eq mx my); reflexivity.
Qed.

Lemma SFcompare_refl (x : spec_float) : x <> S754_nan -> SFcompare x x = Some Eq.
Proof.
  destruct x as [s|s| |s m e]; simpl; intro H; try congruence.
  - destruct s; reflexivity.
  - destruct s; rewrite Z.compare_refl, Pos.compare_cont_refl; reflexivity.
Qed.

Lemma SFcompare_None (x y : spec_float) :
  SFcompare x y = None <-> x = S754_nan \/ y = S754_nan.
Proof.
  split.
  - destruct x as [sx|sx| |sx mx ex], y as [sy|sy| |sy my ey]; simpl; intro H;
      auto; discriminate H.
  - intros [-> | ->]; [reflexivity | destruct x; reflexivity].
Qed.

Lemma is_nan_spec (f : float) : is_nan f = true <-> Prim2SF f = S754_nan.
Proof.
  unfold is_nan. rewrite eqb_spec. unfold SFeqb. split.
  - intro H. destruct (Prim2SF f) eqn:E; try reflexivity;
      rewrite SFcompare_refl in H by discriminate; discriminate H.
  - intros ->. reflexivity.
Qed.

Lemma float_op_spec (a b : float) :
  (float_eq a b = true <-> ieee_holds operatorEq a b)
  /\ (float_gt a b = true <-> ieee_holds operatorGt a b)
  /\ (float_ge a b = true <-> ieee_holds operatorGte a b)
  /\ (float_lt a b = true <-> ieee_holds operatorLt a b)
  /\ (float_le a b = true <-> ieee_holds operatorLte a b).
Proof.
  unfold float_eq, float_gt, float_ge, float_lt, float_le, ieee_holds.
  rewrite eqb_spec, !ltb_spec, !leb_spec.
  unfold SFeqb, SFltb, SFleb.
  rewrite (SFcompare_antisym (Prim2SF a) (Prim2SF b)).
  destruct (SFcompare (Prim2SF a) (Prim2SF b)) as [[]|]; simpl;
    intuition congruence.
Qed.

(** A NaN on either side makes the five operators false. *)
Lemma float_nan_false (a b : float) :
  is_nan a = true \/ is_nan b = true ->
  float_eq a b = false /\ float_gt a b = false /\ float_ge a b = false
  /\ float_lt a b = false /\ float_le a b = false.
Proof.
  rewrite !is_nan_spec, <- SFcompare_None. intro H.
  unfold float_eq, float_gt, float_ge, float_lt, float_le.
  rewrite eqb_spec, !ltb_spec, !leb_spec. unfold SFeqb, SFltb, SFleb.
  rewrite (SFcompare_antisym (Prim2SF a) (Prim2SF b)), H. repeat split.
Qed.

(** *** Signed integer comparison *)

Lemma int_op_spec (op : operator) (a b : Z) :
  match op with
  | operatorEq => a =? b
  | operatorGt => a >? b
  | operatorGte => a >=? b
  | operatorLt => a <? b
  | operatorLte => a <=? b
  end = true <-> int_holds op a b.
Proof.
  destruct op; simpl.
  - apply Z.eqb_eq.
  - rewrite Z.gtb_ltb, Z.ltb_lt. lia.
  - rewrite Z.geb_leb, Z.leb_le. lia.
  - apply Z.ltb_lt.
  - apply Z.leb_le.
Qed.

(** *** Which rule of [compare] applies *)

(** Turns what is known about the tags into values of the tag tests. *)
Ltac tag_tests :=
  repeat match goal with
    | H : ?a <> ?b :> ValueType |- _ =>
        let E := fresh "E" in
        assert (E : ValueType_eqb a b = false) by (now apply ValueType_eqb_neq);
        let E' := fresh "E" in
        assert (E' : ValueType_eqb b a = false)
          by (rewrite ValueType_eqb_sym; exact E);
        clear H; try rewrite !E; try rewrite !E'
    | H : Type_ ?v = _ |- _ => rewrite !H in *; clear H
    end;
  simpl.

Section Rules.
Context {error : Type} {VL : ValueLayer error}.

Lemma null_rule_None (op : operator) (l r : Value) :
  Type_ l <> NullValue -> Type_ r <> NullValue ->
  null_rule (error := error) op l r = None.
Proof. intros Hl Hr. unfold null_rule. tag_tests. reflexivity. Qed.

Lemma direct_rule_None (op : operator) (l r : Value) :
  Type_ l <> Type_ r -> ~ string_bytes_pair l r ->
  direct_rule (error := error) op l r = None.
Proof.
  intros Hd Hsb. unfold direct_rule.
  destruct (ValueType_eqb (Type_ l) (Type_ r)) eqn:E.
  - apply ValueType_eqb_eq in E. contradiction.
  - simpl.
    destruct (ValueType_eqb (Type_ l) StringValue
              && ValueType_eqb (Type_ r) BytesValue) eqn:E1.
    + apply andb_true_iff in E1 as [A B].
      apply ValueType_eqb_eq in A, B. exfalso. apply Hsb. left. auto.
    + simpl.
      destruct (ValueType_eqb (Type_ r) StringValue
                && ValueType_eqb (Type_ l) BytesValue) eqn:E2; [|reflexivity].
      apply andb_true_iff in E2 as [A B].
      apply ValueType_eqb_eq in A, B. exfalso. apply Hsb. right. auto.
Qed.

Lemma uint64_rule_None (op : operator) (l r : Value) :
  no_overflow_decision l r -> uint64_rule op l r = None.
Proof.
  unfold uint64_rule.
  intros [[Hl Hr] | (lv & rv & ui & Dl & Dr & Hu & Hle)].
  - tag_tests. reflexivity.
  - rewrite Dl, Dr.
    assert (G : (ui >? MaxInt64) = false) by (rewrite Z.gtb_ltb; now apply Z.ltb_ge).
    destruct Hu as [[Hl ->] | (Hl & Hr & ->)]; tag_tests;
      rewrite ?ValueType_eqb_refl; simpl; rewrite G; reflexivity.
Qed.

(** [no_overflow_decision] is exactly the case where the uint64 block
    returns nothing. *)
Lemma uint64_rule_None_iff (op : operator) (l r : Value) :
  uint64_rule op l r = None <-> no_overflow_decision l r.
Proof.
  split; [| apply uint64_rule_None].
  unfold uint64_rule, no_overflow_decision.
  destruct (ValueType_eqb (Type_ l) Uint64Value) eqn:Ul; simpl.
  - destruct (Decode l) as [lv [e|]]; [discriminate 1 |].
    destruct (Decode r) as [rv [e|]]; [discriminate 1 |].
    destruct lv; simpl; try discriminate 1.
    destruct (u >? MaxInt64) eqn:G; [destruct op; discriminate 1 |].
    intros _. right. exists (NUint64 u), rv, u.
    apply ValueType_eqb_eq in Ul. rewrite Z.gtb_ltb in G.
    apply Z.ltb_ge in G. tauto.
  - apply ValueType_eqb_neq in Ul.
    destruct (ValueType_eqb (Type_ r) Uint64Value) eqn:Ur.
    + destruct (Decode l) as [lv [e|]]; [discriminate 1 |].
      destruct (Decode r) as [rv [e|]]; [discriminate 1 |].
      destruct rv; simpl; try discriminate 1.
      destruct (u >? MaxInt64) eqn:G; [destruct op; discriminate 1 |].
      intros _. right. exists lv, (NUint64 u), u.
      apply ValueType_eqb_eq in Ur. rewrite Z.gtb_ltb in G.
      apply Z.ltb_ge in G. tauto.
    + apply ValueType_eqb_neq in Ur. tauto.
Qed.

(** A uint64 beyond the signed range on one side, both decodes succeeding:
    the uint64 block returns, whatever the operator. *)
Lemma uint64_rule_Some (op : operator) (l r : Value) (lv rv : native) (ui : Z) :
  Type_ l <> Type_ r ->
  Decode l = (lv, None) -> Decode r = (rv, None) ->
  (Type_ l = Uint64Value /\ lv = NUint64 ui)
  \/ (Type_ r = Uint64Value /\ rv = NUint64 ui) ->
  MaxInt64 < ui ->
  uint64_rule op l r =
    Some (Return match op with
                 | operatorEq => false
                 | operatorGt | operatorGte => ValueType_eqb (Type_ l) Uint64Value
                 | operatorLt | operatorLte => ValueType_eqb (Type_ r) Uint64Value
                 end None).
Proof.
  intros Hd Dl Dr Hu Hbig. unfold uint64_rule. rewrite Dl, Dr.
  assert (G : (ui >? MaxInt64) = true) by (rewrite Z.gtb_ltb; now apply Z.ltb_lt).
  destruct Hu as [[Hl ->] | [Hr ->]].
  - rewrite Hl in *. tag_tests. rewrite G. destruct op; reflexivity.
  - rewrite Hr in *. tag_tests. rewrite ?ValueType_eqb_refl. simpl. rewrite G.
    destruct op; reflexivity.
Qed.

Lemma uint64_not_string_bytes (l r : Value) :
  Type_ l = Uint64Value \/ Type_ r = Uint64Value -> ~ string_bytes_pair l r.
Proof. intros [H | H] [[A B] | [A B]]; congruence. Qed.

(** Past the null and direct rules, [compare] is its uint64 block followed
    by the decoded comparisons. *)
Lemma compare_from_uint64 (op : operator) (l r : Value) :
  Type_ l <> NullValue -> Type_ r <> NullValue ->
  Type_ l <> Type_ r -> ~ string_bytes_pair l r ->
  compare op l r =
    match uint64_rule op l r with
    | Some res => res
    | None => compare_decoded op l r
    end.
Proof.
  intros Hl Hr Hd Hsb. unfold compare.
  now rewrite null_rule_None, direct_rule_None.
Qed.

Lemma compare_from_integer (op : operator) (l r : Value) :
  Type_ l <> NullValue -> Type_ r <> NullValue ->
  Type_ l <> Type_ r -> ~ string_bytes_pair l r ->
  no_overflow_decision l r ->
  compare op l r = compare_decoded op l r.
Proof.
  intros Hl Hr Hd Hsb Hno.
  now rewrite compare_from_uint64, uint64_rule_None.
Qed.

(** [fallback_case] is exactly the case where none of the five rules
    returns. *)
Lemma fallback_case_iff (l r : Value) :
  fallback_case l r <->
  forall op,
    null_rule (error := error) op l r = None
    /\ direct_rule (error := error) op l r = None
    /\ uint64_rule op l r = None
    /\ integer_rule op l r = None
    /\ number_rule op l r = None.
Proof.
  split.
  - intros (Hl & Hr & Hd & Hsb & Hnum & Hno) op.
    rewrite null_rule_None, direct_rule_None, uint64_rule_None by assumption.
    unfold integer_rule, number_rule.
    destruct (IsNumber (Type_ l) && IsNumber (Type_ r)) eqn:Nm.
    { apply andb_true_iff in Nm. contradiction. }
    destruct (IsInteger (Type_ l) && IsInteger (Type_ r)) eqn:I; [| tauto].
    apply andb_true_iff in I as [Il Ir]. exfalso. apply Hnum.
    unfold IsNumber. now rewrite Il, Ir.
  - intro H. destruct (H operatorEq) as (N & D & U & _ & Nm).
    unfold null_rule in N. unfold direct_rule in D. unfold number_rule in Nm.
    destruct (ValueType_eqb (Type_ l) NullValue
              || ValueType_eqb (Type_ r) NullValue) eqn:EN; [discriminate N |].
    apply orb_false_iff in EN as [Nl Nr]. apply ValueType_eqb_neq in Nl, Nr.
    destruct (ValueType_eqb (Type_ l) (Type_ r)
              || (ValueType_eqb (Type_ l) StringValue
                  && ValueType_eqb (Type_ r) BytesValue)
              || (ValueType_eqb (Type_ r) StringValue
                  && ValueType_eqb (Type_ l) BytesValue)) eqn:ED;
      [discriminate D |].
    destruct (IsNumber (Type_ l) && IsNumber (Type_ r)) eqn:ENm.
    { destruct (DecodeToFloat64 l) as [af [e|]]; [discriminate Nm |].
      destruct (DecodeToFloat64 r) as [bf [e|]]; discriminate Nm. }
    unfold fallback_case. repeat split; try assumption.
    + apply ValueType_eqb_neq.
      destruct (ValueType_eqb (Type_ l) (Type_ r));
        [discriminate ED | reflexivity].
    + intros [[A B] | [A B]]; rewrite A, B in ED; discriminate ED.
    + intros [A B]. rewrite A, B in ENm. discriminate ENm.
    + now apply (uint64_rule_None_iff operatorEq).
Qed.

(** The uint64 block decides: what [compare] returns then. *)
Lemma compare_uint64_overflow (op : operator) (l r : Value) (lv rv : native) (ui : Z) :
  Type_ l <> Type_ r -> Type_ l <> NullValue -> Type_ r <> NullValue ->
  Decode l = (lv, None) -> Decode r = (rv, None) ->
  (Type_ l = Uint64Value /\ lv = NUint64 ui)
  \/ (Type_ r = Uint64Value /\ rv = NUint64 ui) ->
  MaxInt64 < ui ->
  compare op l r =
    Return match op with
           | operatorEq => false
           | operatorGt | operatorGte => ValueType_eqb (Type_ l) Uint64Value
           | operatorLt | operatorLte => ValueType_eqb (Type_ r) Uint64Value
           end None.
Proof.
  intros Hd Hl Hr Dl Dr Hu Hbig.
  rewrite compare_from_uint64; auto.
  - now rewrite (uint64_rule_Some op l r lv rv ui).
  - apply uint64_not_string_bytes. tauto.
Qed.

End Rules.

(** ** The properties of the specification *)

Section Properties.
Context {error : Type} {VL : ValueLayer error}.

Lemma decides_Return (b : bool) (P : Prop) :
  (b = true <-> P) -> decides (Return (error := error) b None) P.
Proof. intro H. exists b. auto. Qed.

(** C1 (unsigned-64 overflow rule).  For operands with distinct tags, neither
    Null, both decoding without error, one of them a Uint64 whose decoded
    value [ui] exceeds the largest signed 64-bit integer: [IsEqual] returns
    false; [IsGreaterThan] and [IsGreaterThanOrEqual] return true exactly when
    the Uint64 is the left operand; [IsLesserThan] and [IsLesserThanOrEqual]
    return true exactly when it is the right operand.  In particular
    Uint64(18446744073709551615) is greater than and not equal to
    Int64(9223372036854775807), and Int64(-1) is lesser than
    Uint64(18446744073709551615).  When [ui] is within the signed range the
    rule decides nothing and [compare] goes on with the integer rule. *)
Theorem uint64_overflow_rule :
  (forall (l r : Value) (lv rv : native) (ui : Z),
      Type_ l <> Type_ r -> Type_ l <> NullValue -> Type_ r <> NullValue ->
      Decode l = (lv, None) -> Decode r = (rv, None) ->
      (Type_ l = Uint64Value /\ lv = NUint64 ui)
      \/ (Type_ r = Uint64Value /\ rv = NUint64 ui) ->
      MaxInt64 < ui ->
      IsEqual l r = Return false None
      /\ decides (IsGreaterThan l r) (Type_ l = Uint64Value)
      /\ decides (IsGreaterThanOrEqual l r) (Type_ l = Uint64Value)
      /\ decides (IsLesserThan l r) (Type_ r = Uint64Value)
      /\ decides (IsLesserThanOrEqual l r) (Type_ r = Uint64Value))
  /\ (forall l r : Value,
         Type_ l = Uint64Value -> Type_ r = Int64Value ->
         Decode l = (NUint64 18446744073709551615, None) ->
         Decode r = (NInt64 9223372036854775807, None) ->
         IsGreaterThan l r = Return true None
         /\ IsEqual l r = Return false None)
  /\ (forall l r : Value,
         Type_ l = Int64Value -> Type_ r = Uint64Value ->
         Decode l = (NInt64 (-1), None) ->
         Decode r = (NUint64 18446744073709551615, None) ->
         IsLesserThan l r = Return true None)
  /\ (forall (op : operator) (l r : Value) (lv rv : native) (ui : Z),
         Type_ l <> Type_ r -> Type_ l <> NullValue -> Type_ r <> NullValue ->
         Decode l = (lv, None) -> Decode r = (rv, None) ->
         (Type_ l = Uint64Value /\ lv = NUint64 ui)
         \/ (Type_ r = Uint64Value /\ rv = NUint64 ui) ->
         ui <= MaxInt64 ->
         uint64_rule op l r = None
         /\ compare op l r = compare_decoded op l r).
Proof.
  split; [| split; [| split]].
  - intros l r lv rv ui Hd Hl Hr Dl Dr Hu Hbig.
    unfold IsEqual, IsGreaterThan, IsGreaterThanOrEqual, IsLesserThan,
      IsLesserThanOrEqual.
    rewrite !(compare_uint64_overflow _ l r lv rv ui) by assumption.
    repeat split; try apply decides_Return; try apply ValueType_eqb_eq;
      apply ValueType_eqb_eq.
  - intros l r Hl Hr Dl Dr.
    unfold IsEqual, IsGreaterThan.
    rewrite !(compare_uint64_overflow _ l r _ _ 18446744073709551615 ltac:(congruence)
                ltac:(congruence) ltac:(congruence) Dl Dr
                ltac:(left; auto) ltac:(reflexivity)).
    rewrite Hl. split; reflexivity.
  - intros l r Hl Hr Dl Dr.
    unfold IsLesserThan.
    rewrite !(compare_uint64_overflow _ l r _ _ 18446744073709551615 ltac:(congruence)
                ltac:(congruence) ltac:(congruence) Dl Dr
                ltac:(right; auto) ltac:(reflexivity)).
    rewrite Hr. reflexivity.
  - intros op l r lv rv ui Hd Hl Hr Dl Dr Hu Hle.
    assert (Hno : no_overflow_decision l r).
    { right. destruct Hu as [[Tl ->] | [Tr ->]].
      - exists (NUint64 ui), rv, ui. tauto.
      - exists lv, (NUint64 ui), ui. repeat split; auto.
        right. repeat split; auto. congruence. }
    split.
    + now apply uint64_rule_None.
    + apply compare_from_integer; auto. apply uint64_not_string_bytes.
      destruct Hu as [[Tl _] | [Tr _]]; auto.
Qed.

(** C2 (null rule).  When at least one operand is Null: [IsEqual],
    [IsGreaterThanOrEqual] and [IsLesserThanOrEqual] return true exactly when
    both operands are Null; [IsGreaterThan] and [IsLesserThan] return false.
    Nothing is decoded: every operator returns the same boolean, without
    error, under any other value layer, whatever the operands' [Data]. *)
Theorem null_rule_decides (l r : Value) :
  Type_ l = NullValue \/ Type_ r = NullValue ->
  decides (IsEqual l r) (Type_ l = NullValue /\ Type_ r = NullValue)
  /\ decides (IsGreaterThanOrEqual l r) (Type_ l = NullValue /\ Type_ r = NullValue)
  /\ decides (IsLesserThanOrEqual l r) (Type_ l = NullValue /\ Type_ r = NullValue)
  /\ IsGreaterThan l r = Return false None
  /\ IsLesserThan l r = Return false None
  /\ (forall (error' : Type) (VL' : ValueLayer error') (op : operator),
         exists x : bool,
           compare op l r = Return x None
           /\ compare (VL := VL') op l r = Return x None).
Proof.
  intro H.
  assert (N : ValueType_eqb (Type_ l) NullValue
              || ValueType_eqb (Type_ r) NullValue = true).
  { apply orb_true_iff. rewrite !ValueType_eqb_eq. exact H. }
  assert (B : ValueType_eqb (Type_ l) (Type_ r) = true
              <-> Type_ l = NullValue /\ Type_ r = NullValue).
  { rewrite ValueType_eqb_eq. destruct H as [H | H]; rewrite H; intuition congruence. }
  unfold IsEqual, IsGreaterThanOrEqual, IsLesserThanOrEqual, IsGreaterThan,
    IsLesserThan, compare, null_rule.
  rewrite N.
  repeat split; try (apply decides_Return; exact B); try apply B; try tauto.
  intros error' VL' op.
  destruct op; eexists; split; reflexivity.
Qed.

(** C3 (directly comparable rule).  For non-Null operands with equal tags, or
    one String and one Bytes, every predicate is decided by the raw [Data]
    alone, without decoding and without error: [IsEqual] is equality of the
    byte sequences and the four ordering predicates follow the lexicographic
    order of the bytes.  In particular a String and a Bytes of equal raw
    content are equal. *)
Theorem direct_rule_decides :
  (forall l r : Value,
      Type_ l <> NullValue -> Type_ r <> NullValue ->
      Type_ l = Type_ r \/ string_bytes_pair l r ->
      decides (IsEqual l r) (Data l = Data r)
      /\ decides (IsGreaterThan l r) (lex_lt (Data r) (Data l))
      /\ decides (IsGreaterThanOrEqual l r) (lex_le (Data r) (Data l))
      /\ decides (IsLesserThan l r) (lex_lt (Data l) (Data r))
      /\ decides (IsLesserThanOrEqual l r) (lex_le (Data l) (Data r))
      /\ (forall (error' : Type) (VL' : ValueLayer error') (op : operator),
             exists x : bool,
               compare op l r = Return x None
               /\ compare (VL := VL') op l r = Return x None))
  /\ (forall x : list byte,
         IsEqual (mkValue StringValue x) (mkValue BytesValue x) = Return true None).
Proof.
  split.
  - intros l r Hl Hr H.
    assert (D : ValueType_eqb (Type_ l) (Type_ r)
                || (ValueType_eqb (Type_ l) StringValue
                    && ValueType_eqb (Type_ r) BytesValue)
                || (ValueType_eqb (Type_ r) StringValue
                    && ValueType_eqb (Type_ l) BytesValue) = true).
    { destruct H as [H | [[A B] | [A B]]].
      - apply ValueType_eqb_eq in H. now rewrite H.
      - rewrite A, B. reflexivity.
      - rewrite A, B. reflexivity. }
    assert (N : forall (error' : Type) (op : operator),
               null_rule (error := error') op l r = None).
    { intros. now apply null_rule_None. }
    unfold IsEqual, IsGreaterThan, IsGreaterThanOrEqual, IsLesserThan,
      IsLesserThanOrEqual, compare.
    rewrite !N. unfold direct_rule. rewrite D.
    repeat split; try apply decides_Return.
    + apply bytes_Equal_eq.
    + rewrite Z.gtb_ltb, Z.ltb_lt, <- bytes_Compare_gt. lia.
    + rewrite Z.geb_leb, Z.leb_le. unfold lex_le.
      rewrite <- bytes_Compare_gt, <- (bytes_Compare_eq (Data r) (Data l)).
      rewrite (bytes_Compare_antisym (Data l) (Data r)). lia.
    + rewrite Z.ltb_lt. apply bytes_Compare_lt.
    + rewrite Z.leb_le. unfold lex_le.
      rewrite <- bytes_Compare_lt, <- bytes_Compare_eq. lia.
    + intros error' VL' op. rewrite !N. eexists; split; reflexivity.
  - intro x. unfold IsEqual, compare. simpl.
    f_equal. now apply bytes_Equal_eq.
Qed.

(** Under the number rule, [compare] is the float comparison of the two
    float decodings. *)
Lemma compare_number_rule (op : operator) (l r : Value) :
  Type_ l <> NullValue -> Type_ r <> NullValue ->
  Type_ l <> Type_ r -> ~ string_bytes_pair l r ->
  no_overflow_decision l r ->
  IsNumber (Type_ l) = true -> IsNumber (Type_ r) = true ->
  Type_ l = Float64Value \/ Type_ r = Float64Value ->
  compare op l r =
    match DecodeToFloat64 l with
    | (_, Some e) => Return false (Some e)
    | (af, None) =>
        match DecodeToFloat64 r with
        | (_, Some e) => Return false (Some e)
        | (bf, None) =>
            Return match op with
                   | operatorEq => float_eq af bf
                   | operatorGt => float_gt af bf
                   | operatorGte => float_ge af bf
                   | operatorLt => float_lt af bf
                   | operatorLte => float_le af bf
                   end None
        end
    end.
Proof.
  intros Hl Hr Hd Hsb Hno Nl Nr Hf.
  rewrite compare_from_integer by assumption.
  unfold compare_decoded, integer_rule, number_rule.
  assert (I : IsInteger (Type_ l) && IsInteger (Type_ r) = false).
  { destruct Hf as [H | H]; rewrite H; simpl; auto using andb_false_r. }
  rewrite I, Nl, Nr. simpl.
  destruct (DecodeToFloat64 l) as [af [e|]]; [reflexivity|].
  destruct (DecodeToFloat64 r) as [bf [e|]]; reflexivity.
Qed.

(** C4 (numeric rule).  For non-Null operands with distinct tags, not a
    String/Bytes pair, on which the uint64 block takes no decision, both
    numbers and at least one a Float64: both are decoded to float64, a decode
    failure is returned as it is, and otherwise the operator is evaluated
    with IEEE-754 comparison, so that a NaN on either side gives false for
    all five operators.  In particular Int32(5) equals Float64(5.0) and
    Float64(1.5) is greater than Int8(1). *)
Theorem number_rule_decides :
  (forall (op : operator) (l r : Value),
      Type_ l <> NullValue -> Type_ r <> NullValue ->
      Type_ l <> Type_ r -> ~ string_bytes_pair l r ->
      no_overflow_decision l r ->
      IsNumber (Type_ l) = true -> IsNumber (Type_ r) = true ->
      Type_ l = Float64Value \/ Type_ r = Float64Value ->
      (forall af e, DecodeToFloat64 l = (af, Some e) ->
                    compare op l r = Return false (Some e))
      /\ (forall af bf e,
             DecodeToFloat64 l = (af, None) -> DecodeToFloat64 r = (bf, Some e) ->
             compare op l r = Return false (Some e))
      /\ (forall af bf,
             DecodeToFloat64 l = (af, None) -> DecodeToFloat64 r = (bf, None) ->
             decides (compare op l r) (ieee_holds op af bf)
             /\ (is_nan af = true \/ is_nan bf = true ->
                 compare op l r = Return false None)))
  /\ (forall l r : Value,
         Type_ l = Int32Value -> Type_ r = Float64Value ->
         DecodeToFloat64 l = (5%float, None) ->
         DecodeToFloat64 r = (5%float, None) ->
         IsEqual l r = Return true None)
  /\ (forall l r : Value,
         Type_ l = Float64Value -> Type_ r = Int8Value ->
         DecodeToFloat64 l = (1.5%float, None) ->
         DecodeToFloat64 r = (1%float, None) ->
         IsGreaterThan l r = Return true None).
Proof.
  split; [| split].
  - intros op l r Hl Hr Hd Hsb Hno Nl Nr Hf.
    rewrite compare_number_rule by assumption.
    split; [| split].
    + intros af e ->. reflexivity.
    + intros af bf e -> ->. reflexivity.
    + intros af bf -> ->. split.
      * apply decides_Return.
        destruct (float_op_spec af bf) as (A & B & C & D & E).
        destruct op; assumption.
      * intro Hnan.
        destruct (float_nan_false af bf Hnan) as (A & B & C & D & E).
        destruct op; congruence.
  - intros l r Tl Tr Dl Dr. unfold IsEqual.
    rewrite compare_number_rule, Dl, Dr.
    + reflexivity.
    + congruence.
    + congruence.
    + congruence.
    + intros [[A B] | [A B]]; congruence.
    + left. split; congruence.
    + now rewrite Tl.
    + now rewrite Tr.
    + now right.
  - intros l r Tl Tr Dl Dr. unfold IsGreaterThan.
    rewrite compare_number_rule, Dl, Dr.
    + reflexivity.
    + congruence.
    + congruence.
    + congruence.
    + intros [[A B] | [A B]]; congruence.
    + left. split; congruence.
    + now rewrite Tl.
    + now rewrite Tr.
    + now left.
Qed.

(** C5 (integer rule).  For non-Null operands with distinct tags on which
    the uint64 block takes no decision, both integers: both are decoded to
    int64, a decode failure is returned as it is, and otherwise the operator
    is evaluated with ordinary signed comparison. *)
Theorem integer_rule_decides (op : operator) (l r : Value) :
  Type_ l <> NullValue -> Type_ r <> NullValue ->
  Type_ l <> Type_ r ->
  no_overflow_decision l r ->
  IsInteger (Type_ l) = true -> IsInteger (Type_ r) = true ->
  (forall ai e, DecodeToInt64 l = (ai, Some e) ->
                compare op l r = Return false (Some e))
  /\ (forall ai bi e,
         DecodeToInt64 l = (ai, None) -> DecodeToInt64 r = (bi, Some e) ->
         compare op l r = Return false (Some e))
  /\ (forall ai bi,
         DecodeToInt64 l = (ai, None) -> DecodeToInt64 r = (bi, None) ->
         decides (compare op l r) (int_holds op ai bi)).
Proof.
  intros Hl Hr Hd Hno Il Ir.
  assert (Hsb : ~ string_bytes_pair l r).
  { intros [[A B] | [A B]]; rewrite A in Il; discriminate Il. }
  rewrite compare_from_integer by assumption.
  unfold compare_decoded, integer_rule. rewrite Il, Ir. simpl.
  split; [| split].
  - intros ai e ->. reflexivity.
  - intros ai bi e -> ->. reflexivity.
  - intros ai bi -> ->. apply decides_Return. apply int_op_spec.
Qed.

(** C6 (incomparable fallback).  When no rule applies (neither operand Null,
    distinct tags that are not a String/Bytes pair, not both numbers, no
    decision of the uint64 block), each of the five operators returns false
    without error and [IsNotEqual] returns true without error.  This is so for
    a String against an Int64, and for a Bool against a number on which the
    uint64 block takes no decision. *)
Theorem fallback_all_false :
  (forall l r : Value,
      fallback_case l r ->
      (forall op, compare op l r = Return false None)
      /\ IsNotEqual l r = Return true None)
  /\ (forall l r : Value,
         Type_ l = StringValue -> Type_ r = Int64Value ->
         (forall op, compare op l r = Return false None)
         /\ IsNotEqual l r = Return true None)
  /\ (forall l r : Value,
         (Type_ l = BoolValue /\ IsNumber (Type_ r) = true)
         \/ (IsNumber (Type_ l) = true /\ Type_ r = BoolValue) ->
         no_overflow_decision l r ->
         (forall op, compare op l r = Return false None)
         /\ IsNotEqual l r = Return true None).
Proof.
  assert (Main : forall l r : Value,
             fallback_case l r ->
             (forall op, compare op l r = Return false None)
             /\ IsNotEqual l r = Return true None).
  { intros l r (Hl & Hr & Hd & Hsb & Hnum & Hno).
    assert (A : forall op, compare op l r = Return false None).
    { intro op. rewrite compare_from_integer by assumption.
      unfold compare_decoded, integer_rule, number_rule.
      destruct (IsNumber (Type_ l) && IsNumber (Type_ r)) eqn:Nm.
      - apply andb_true_iff in Nm. contradiction.
      - destruct (IsInteger (Type_ l) && IsInteger (Type_ r)) eqn:I;
          [| reflexivity].
        apply andb_true_iff in I as [Il Ir]. exfalso. apply Hnum.
        unfold IsNumber. now rewrite Il, Ir. }
    split; [exact A |].
    unfold IsNotEqual, IsEqual. now rewrite A. }
  split; [exact Main | split].
  - intros l r Tl Tr. apply Main. unfold fallback_case, string_bytes_pair.
    rewrite Tl, Tr. repeat split; try congruence.
    + intros [[A B] | [A B]]; congruence.
    + simpl. intros [A _]. discriminate A.
    + left. split; congruence.
  - intros l r H Hno. apply Main.
    assert (Hl : Type_ l <> NullValue).
    { destruct H as [[Tl _] | [Nl _]]; [congruence |].
      intro E. rewrite E in Nl. discriminate Nl. }
    assert (Hr : Type_ r <> NullValue).
    { destruct H as [[_ Nr] | [_ Tr]]; [| congruence].
      intro E. rewrite E in Nr. discriminate Nr. }
    assert (Hd : Type_ l <> Type_ r).
    { destruct H as [[Tl Nr] | [Nl Tr]]; intro E.
      - rewrite <- E, Tl in Nr. discriminate Nr.
      - rewrite E, Tr in Nl. discriminate Nl. }
    assert (Hsb : ~ string_bytes_pair l r).
    { destruct H as [[Tl _] | [_ Tr]]; intros [[A B] | [A B]]; congruence. }
    assert (Hnum : ~ (IsNumber (Type_ l) = true /\ IsNumber (Type_ r) = true)).
    { destruct H as [[Tl _] | [_ Tr]]; intros [A B].
      - rewrite Tl in A. discriminate A.
      - rewrite Tr in B. discriminate B. }
    unfold fallback_case. tauto.
Qed.

(** C7 (negation law).  If [IsEqual a b] returns [x] without error,
    [IsNotEqual a b] returns the negation of [x] without error; if
    [IsEqual a b] returns an error, [IsNotEqual a b] returns that same
    error. *)
Theorem IsNotEqual_negates (a b : Value) :
  (forall x : bool,
      IsEqual a b = Return x None -> IsNotEqual a b = Return (negb x) None)
  /\ (forall (x : bool) (e : error),
         IsEqual a b = Return x (Some e) ->
         IsNotEqual a b = Return x (Some e)).
Proof.
  unfold IsNotEqual. split.
  - intros x ->. reflexivity.
  - intros x e ->. reflexivity.
Qed.

(** C9 (uint64 beyond the signed range against a Float64).  With both
    decodes succeeding, the result depends only on the side the Uint64 is
    on, whatever the other operand decodes to: on the left, [IsEqual] is
    false and [IsGreaterThan] true; on the right, [IsEqual] is false and
    [IsLesserThan] true.  In particular [IsEqual] is false when the two
    operands are equal as floats (Uint64(2^63) against Float64(2^63)), and
    [IsGreaterThan] is true when the float is the larger one
    (Float64(2^70)) or a NaN. *)
Theorem uint64_overflow_ignores_float :
  (forall (l r : Value) (ui : Z) (rv : native),
      Type_ l = Uint64Value -> Type_ r = Float64Value ->
      Decode l = (NUint64 ui, None) -> Decode r = (rv, None) ->
      MaxInt64 < ui ->
      IsEqual l r = Return false None
      /\ IsGreaterThan l r = Return true None
      /\ IsGreaterThanOrEqual l r = Return true None
      /\ IsLesserThan l r = Return false None
      /\ IsLesserThanOrEqual l r = Return false None)
  /\ (forall (l r : Value) (ui : Z) (lv : native),
         Type_ l = Float64Value -> Type_ r = Uint64Value ->
         Decode l = (lv, None) -> Decode r = (NUint64 ui, None) ->
         MaxInt64 < ui ->
         IsEqual l r = Return false None
         /\ IsGreaterThan l r = Return false None
         /\ IsGreaterThanOrEqual l r = Return false None
         /\ IsLesserThan l r = Return true None
         /\ IsLesserThanOrEqual l r = Return true None)
  /\ (forall (l r : Value) (ui : Z) (rv : native) (af bf : float),
         Type_ l = Uint64Value -> Type_ r = Float64Value ->
         Decode l = (NUint64 ui, None) -> Decode r = (rv, None) ->
         MaxInt64 < ui ->
         DecodeToFloat64 l = (af, None) -> DecodeToFloat64 r = (bf, None) ->
         (float_eq af bf = true -> IsEqual l r = Return false None)
         /\ (float_lt af bf = true -> IsGreaterThan l r = Return true None)
         /\ (is_nan bf = true ->
             IsEqual l r = Return false None
             /\ IsGreaterThan l r = Return true None)).
Proof.
  assert (L : forall (l r : Value) (ui : Z) (rv : native),
             Type_ l = Uint64Value -> Type_ r = Float64Value ->
             Decode l = (NUint64 ui, None) -> Decode r = (rv, None) ->
             MaxInt64 < ui ->
             forall op, compare op l r =
                          Return match op with
                                 | operatorGt | operatorGte => true
                                 | _ => false
                                 end None).
  { intros l r ui rv Tl Tr Dl Dr Hbig op.
    rewrite (compare_uint64_overflow op l r (NUint64 ui) rv ui);
      try assumption; try congruence; [| now left].
    rewrite Tl, Tr. destruct op; reflexivity. }
  split; [| split].
  - intros l r ui rv Tl Tr Dl Dr Hbig.
    unfold IsEqual, IsGreaterThan, IsGreaterThanOrEqual, IsLesserThan,
      IsLesserThanOrEqual.
    rewrite !(L l r ui rv) by assumption. repeat split.
  - intros l r ui lv Tl Tr Dl Dr Hbig.
    unfold IsEqual, IsGreaterThan, IsGreaterThanOrEqual, IsLesserThan,
      IsLesserThanOrEqual.
    rewrite !(compare_uint64_overflow _ l r lv (NUint64 ui) ui);
      try assumption; try congruence; try (now right).
    rewrite Tl, Tr. repeat split.
  - intros l r ui rv af bf Tl Tr Dl Dr Hbig _ _.
    unfold IsEqual, IsGreaterThan.
    rewrite !(L l r ui rv) by assumption. repeat split.
Qed.

(** What the uint64 block does on a pair that passed the null and direct
    rules: it returns a decode error, panics in its type assertion, settles
    the order, or passes the pair on. *)
Lemma uint64_rule_cases (l r : Value) :
  Type_ l <> Type_ r ->
  (exists e, forall op, uint64_rule op l r = Some (Return false (Some e)))
  \/ (forall op, uint64_rule op l r = Some Panic)
  \/ (exists v, v <> VUnordered
                /\ forall op, uint64_rule op l r = Some (Return (op_holds op v) None))
  \/ no_overflow_decision l r.
Proof.
  intro Hd. unfold uint64_rule.
  destruct (ValueType_eqb (Type_ l) Uint64Value) eqn:Ul.
  - assert (Ur : ValueType_eqb (Type_ r) Uint64Value = false).
    { apply ValueType_eqb_eq in Ul. apply ValueType_eqb_neq. congruence. }
    rewrite Ur. simpl.
    destruct (Decode l) as [lv [e|]] eqn:Dl.
    { left. exists e. reflexivity. }
    destruct (Decode r) as [rv [e|]] eqn:Dr.
    { left. exists e. reflexivity. }
    destruct lv; simpl; try (right; left; reflexivity).
    destruct (u >? MaxInt64) eqn:G.
    + right; right; left. exists VGreater. split; [discriminate |].
      intro op. destruct op; reflexivity.
    + right; right; right. right.
      exists (NUint64 u), rv, u. apply ValueType_eqb_eq in Ul.
      rewrite Z.gtb_ltb in G. apply Z.ltb_ge in G. tauto.
  - destruct (ValueType_eqb (Type_ r) Uint64Value) eqn:Ur; simpl.
    + destruct (Decode l) as [lv [e|]] eqn:Dl.
      { left. exists e. reflexivity. }
      destruct (Decode r) as [rv [e|]] eqn:Dr.
      { left. exists e. reflexivity. }
      destruct rv; simpl; try (right; left; reflexivity).
      destruct (u >? MaxInt64) eqn:G.
      * right; right; left. exists VLess. split; [discriminate |].
        intro op. destruct op; reflexivity.
      * right; right; right. right.
        exists lv, (NUint64 u), u.
        apply ValueType_eqb_eq in Ur. apply ValueType_eqb_neq in Ul.
        rewrite Z.gtb_ltb in G. apply Z.ltb_ge in G. tauto.
    + right; right; right. left. split; now apply ValueType_eqb_neq.
Qed.

(** [compare] as a whole: on a given pair it returns one decode error for
    every operator, or panics for every operator, or answers every operator
    from one verdict on the pair; and the verdict is "unordered" only for a
    Null against a non-Null, a NaN among the floats compared, or the
    fallback. *)
Lemma compare_verdict (l r : Value) :
  (exists e, forall op, compare op l r = Return false (Some e))
  \/ (forall op, compare op l r = Panic)
  \/ (exists v,
         (forall op, compare op l r = Return (op_holds op v) None)
         /\ (v = VUnordered ->
             one_null l r \/ nan_operand l r \/ fallback_case l r)).
Proof.
  destruct (ValueType_eqb (Type_ l) NullValue
            || ValueType_eqb (Type_ r) NullValue) eqn:N.
  { right; right.
    destruct (ValueType_eqb (Type_ l) (Type_ r)) eqn:E.
    - exists VEqual. split; [| discriminate].
      intro op. unfold compare, null_rule. rewrite N, E.
      destruct op; reflexivity.
    - exists VUnordered. split.
      + intro op. unfold compare, null_rule. rewrite N, E.
        destruct op; reflexivity.
      + intros _. left. apply ValueType_eqb_neq in E.
        apply orb_true_iff in N. rewrite !ValueType_eqb_eq in N.
        unfold one_null.
        destruct N as [A | A]; [left | right]; split; auto; congruence. }
  apply orb_false_iff in N as [Nl Nr]. apply ValueType_eqb_neq in Nl, Nr.
  destruct (ValueType_eqb (Type_ l) (Type_ r)
            || (ValueType_eqb (Type_ l) StringValue
                && ValueType_eqb (Type_ r) BytesValue)
            || (ValueType_eqb (Type_ r) StringValue
                && ValueType_eqb (Type_ l) BytesValue)) eqn:D.
  { right; right.
    assert (C : forall op,
               compare op l r =
                 Return match op with
                        | operatorEq => bytes_Equal (Data l) (Data r)
                        | operatorGt => bytes_Compare (Data l) (Data r) >? 0
                        | operatorGte => bytes_Compare (Data l) (Data r) >=? 0
                        | operatorLt => bytes_Compare (Data l) (Data r) <? 0
                        | operatorLte => bytes_Compare (Data l) (Data r) <=? 0
                        end None).
    { intro op. unfold compare. rewrite null_rule_None by assumption.
      unfold direct_rule. rewrite D. reflexivity. }
    destruct (bytes_Compare_range (Data l) (Data r)) as [B | [B | B]];
      [exists VLess | exists VEqual | exists VGreater];
      (split; [| discriminate]); intro op;
      rewrite C, bytes_Equal_Compare, B; destruct op; reflexivity. }
  assert (Hd : Type_ l <> Type_ r).
  { apply ValueType_eqb_neq.
    destruct (ValueType_eqb (Type_ l) (Type_ r)); [discriminate D | reflexivity]. }
  assert (Hsb : ~ string_bytes_pair l r).
  { intros [[A B] | [A B]]; rewrite A, B in D; discriminate D. }
  destruct (uint64_rule_cases l r Hd)
    as [(e & He) | [Hp | [(v & Hv & Hc) | Hno]]].
  { left. exists e. intro op.
    rewrite compare_from_uint64 by assumption. now rewrite He. }
  { right; left. intro op.
    rewrite compare_from_uint64 by assumption. now rewrite Hp. }
  { right; right. exists v. split; [| contradiction]. intro op.
    rewrite compare_from_uint64 by assumption. now rewrite Hc. }
  assert (C : forall op, compare op l r = compare_decoded op l r).
  { intro op. now apply compare_from_integer. }
  unfold compare_decoded, integer_rule, number_rule in C.
  destruct (IsInteger (Type_ l) && IsInteger (Type_ r)) eqn:I.
  { destruct (DecodeToInt64 l) as [ai [e|]].
    { left. exists e. exact C. }
    destruct (DecodeToInt64 r) as [bi [e|]].
    { left. exists e. exact C. }
    right; right.
    exists (match ai ?= bi with
            | Lt => VLess | Eq => VEqual | Gt => VGreater
            end).
    split.
    - intro op. rewrite C. unfold Z.gtb, Z.geb, Z.ltb, Z.leb.
      rewrite Z.eqb_compare. destruct (ai ?= bi), op; reflexivity.
    - destruct (ai ?= bi); discriminate. }
  destruct (IsNumber (Type_ l) && IsNumber (Type_ r)) eqn:Nm.
  { destruct (DecodeToFloat64 l) as [af [e|]] eqn:Fl.
    { left. exists e. exact C. }
    destruct (DecodeToFloat64 r) as [bf [e|]] eqn:Fr.
    { left. exists e. exact C. }
    right; right.
    exists (match SFcompare (Prim2SF af) (Prim2SF bf) with
            | Some Lt => VLess | Some Eq => VEqual | Some Gt => VGreater
            | None => VUnordered
            end).
    split.
    - intro op. rewrite C.
      unfold float_eq, float_gt, float_ge, float_lt, float_le.
      rewrite eqb_spec, !ltb_spec, !leb_spec. unfold SFeqb, SFltb, SFleb.
      rewrite (SFcompare_antisym (Prim2SF af) (Prim2SF bf)).
      destruct (SFcompare (Prim2SF af) (Prim2SF bf)) as [[]|], op;
        reflexivity.
    - intro Hv. right; left.
      destruct (SFcompare (Prim2SF af) (Prim2SF bf)) as [[]|] eqn:Ec;
        try discriminate Hv.
      apply SFcompare_None in Ec. rewrite <- !is_nan_spec in Ec.
      destruct Ec as [A | A]; [exists af | exists bf]; auto. }
  right; right. exists VUnordered. split.
  - intro op. rewrite C. destruct op; reflexivity.
  - intros _. right; right. unfold fallback_case.
    repeat split; auto.
    intros [A B]. rewrite A, B in Nm. discriminate Nm.
Qed.


(** C10 (the or-equal predicates).  Whenever the five predicates return
    without error on a pair, [IsGreaterThanOrEqual] is true exactly when
    [IsGreaterThan] or [IsEqual] is, and [IsLesserThanOrEqual] is true
    exactly when [IsLesserThan] or [IsEqual] is, whichever rule of [compare]
    applies. *)
Theorem or_equal_is_strict_or_equal (a b : Value) (xe xg xge xl xle : bool) :
  IsEqual a b = Return xe None ->
  IsGreaterThan a b = Return xg None ->
  IsGreaterThanOrEqual a b = Return xge None ->
  IsLesserThan a b = Return xl None ->
  IsLesserThanOrEqual a b = Return xle None ->
  (xge = true <-> xg = true \/ xe = true)
  /\ (xle = true <-> xl = true \/ xe = true).
Proof.
  unfold IsEqual, IsGreaterThan, IsGreaterThanOrEqual, IsLesserThan,
    IsLesserThanOrEqual.
  destruct (compare_verdict a b) as [(e & He) | [Hp | (v & Hv & _)]].
  - rewrite !He. discriminate 1.
  - rewrite !Hp. discriminate 1.
  - rewrite !Hv. intros He Hg Hge Hl Hle.
    injection He as <-. injection Hg as <-. injection Hge as <-.
    injection Hl as <-. injection Hle as <-.
    destruct v; simpl; intuition congruence.
Qed.

End Properties.

(** ** The properties at concrete values *)

(** The overflow rule on Uint64(2^64-1), Int64(2^63-1), Int64(-1), and the
    fall-through on Uint64(7). *)
Lemma uint64_overflow_rule_witness :
  IsGreaterThan (VL := Codec.layer) (Codec.Uint64 18446744073709551615)
    (Codec.Int64 9223372036854775807) = Return true None
  /\ IsEqual (VL := Codec.layer) (Codec.Uint64 18446744073709551615)
       (Codec.Int64 9223372036854775807) = Return false None
  /\ IsLesserThan (VL := Codec.layer) (Codec.Int64 (-1))
       (Codec.Uint64 18446744073709551615) = Return true None
  /\ decides (IsLesserThanOrEqual (VL := Codec.layer) (Codec.Int8 3)
                (Codec.Uint64 9223372036854775808))
       (Uint64Value = Uint64Value)
  /\ compare (VL := Codec.layer) operatorLt (Codec.Uint64 7) (Codec.Int64 9)
     = compare_decoded (VL := Codec.layer) operatorLt (Codec.Uint64 7)
         (Codec.Int64 9).
Proof.
  destruct (uint64_overflow_rule (VL := Codec.layer)) as (H1 & H2 & H3 & H4).
  split; [| split; [| split; [| split]]].
  - apply H2; reflexivity.
  - apply H2; reflexivity.
  - apply H3; reflexivity.
  - apply (H1 (Codec.Int8 3) (Codec.Uint64 9223372036854775808)
             (NInt8 3) (NUint64 9223372036854775808) 9223372036854775808);
      try discriminate; try reflexivity.
    right. split; reflexivity.
  - apply (H4 operatorLt (Codec.Uint64 7) (Codec.Int64 9) (NUint64 7) (NInt64 9) 7);
      try discriminate; try reflexivity.
    left. split; reflexivity.
Defined.

(** The null rule on Null against an Int64 with an empty, malformed payload. *)
Lemma null_rule_decides_witness :
  (Type_ Codec.Null = NullValue \/ Type_ (mkValue Int64Value []) = NullValue)
  /\ decides (IsEqual (VL := Codec.layer) Codec.Null (mkValue Int64Value []))
       (NullValue = NullValue /\ Int64Value = NullValue)
  /\ IsGreaterThan (VL := Codec.layer) Codec.Null (mkValue Int64Value [])
     = Return false None
  /\ IsLesserThan (VL := Codec.layer) Codec.Null (mkValue Int64Value [])
     = Return false None.
Proof.
  assert (H : Type_ Codec.Null = NullValue
              \/ Type_ (mkValue Int64Value []) = NullValue)
    by (left; reflexivity).
  split; [exact H |].
  destruct (null_rule_decides (VL := Codec.layer) Codec.Null
              (mkValue Int64Value []) H) as (A & _ & _ & B & C & _).
  repeat split; assumption.
Defined.

(** The direct rule on a String against a Bytes and on two Uint64. *)
Lemma direct_rule_decides_witness :
  decides (IsLesserThan (VL := Codec.layer) (Codec.String [x61])
             (Codec.Bytes [x61; x62]))
    (lex_lt [x61] [x61; x62])
  /\ decides (IsEqual (VL := Codec.layer) (Codec.Uint64 7) (Codec.Uint64 7))
       (Codec.be_bytes 8 7 = Codec.be_bytes 8 7)
  /\ IsEqual (VL := Codec.layer) (mkValue StringValue [x78])
       (mkValue BytesValue [x78]) = Return true None.
Proof.
  destruct (direct_rule_decides (VL := Codec.layer)) as (H1 & H2).
  split; [| split].
  - apply (H1 (Codec.String [x61]) (Codec.Bytes [x61; x62]));
      try discriminate.
    right. left. split; reflexivity.
  - apply (H1 (Codec.Uint64 7) (Codec.Uint64 7)); try discriminate.
    left. reflexivity.
  - apply H2.
Defined.

(** The numeric rule on 5 and 5.0, on 1.5 and 1, on a NaN, and on a Float64
    with a truncated payload. *)
Lemma number_rule_decides_witness :
  IsEqual (VL := Codec.layer) (Codec.Int32 5)
    (Codec.Float64bits 0x4014000000000000) = Return true None
  /\ IsGreaterThan (VL := Codec.layer) (Codec.Float64bits 0x3FF8000000000000)
       (Codec.Int8 1) = Return true None
  /\ compare (VL := Codec.layer) operatorLte
       (Codec.Float64bits 0x7FF8000000000000) (Codec.Int8 1)
     = Return false None
  /\ compare (VL := Codec.layer) operatorEq (mkValue Float64Value [x00])
       (Codec.Int8 1)
     = Return false (Some (Codec.ErrMalformed Float64Value)).
Proof.
  destruct (number_rule_decides (VL := Codec.layer)) as (H1 & H2 & H3).
  assert (Hsb : forall d, ~ string_bytes_pair (mkValue Float64Value d) (Codec.Int8 1)).
  { intros d [[A B] | [A B]]; discriminate A. }
  assert (Hno : forall d, no_overflow_decision (VL := Codec.layer)
                            (mkValue Float64Value d) (Codec.Int8 1)).
  { intro d. left. split; discriminate. }
  split; [| split; [| split]].
  - apply H2; reflexivity.
  - apply H3; reflexivity.
  - destruct (H1 operatorLte (Codec.Float64bits 0x7FF8000000000000) (Codec.Int8 1))
      as (_ & _ & A);
      [discriminate | discriminate | discriminate | apply Hsb | apply Hno
      | reflexivity | reflexivity | left; reflexivity |].
    apply (A nan 1%float); [reflexivity | reflexivity |]. left. reflexivity.
  - destruct (H1 operatorEq (mkValue Float64Value [x00]) (Codec.Int8 1))
      as (A & _);
      [discriminate | discriminate | discriminate | apply Hsb | apply Hno
      | reflexivity | reflexivity | left; reflexivity |].
    apply (A zero). reflexivity.
Defined.

(** The integer rule on Int8 against Int64, on a small Uint64 against an
    Int64, and on an Int32 with an empty payload. *)
Lemma integer_rule_decides_witness :
  decides (compare (VL := Codec.layer) operatorLt (Codec.Int8 3) (Codec.Int64 5))
    (int_holds operatorLt 3 5)
  /\ compare (VL := Codec.layer) operatorGte (Codec.Uint64 7) (Codec.Int64 (-2))
     = Return true None
  /\ compare (VL := Codec.layer) operatorEq (mkValue Int32Value [])
       (Codec.Int64 5)
     = Return false (Some (Codec.ErrMalformed Int32Value)).
Proof.
  split; [| split].
  - destruct (integer_rule_decides (VL := Codec.layer) operatorLt
                (Codec.Int8 3) (Codec.Int64 5)) as (_ & _ & A);
      [discriminate | discriminate | discriminate
      | left; split; discriminate | reflexivity | reflexivity |].
    apply (A 3 5); reflexivity.
  - destruct (integer_rule_decides (VL := Codec.layer) operatorGte
                (Codec.Uint64 7) (Codec.Int64 (-2))) as (_ & _ & A);
      [discriminate | discriminate | discriminate | | reflexivity | reflexivity |].
    + right. exists (NUint64 7), (NInt64 (-2)), 7.
      repeat split; try reflexivity; [| discriminate].
      left. split; reflexivity.
    + destruct (A 7 (-2) eq_refl eq_refl) as (b & Hb & Hiff).
      rewrite Hb. f_equal. apply Hiff. simpl. lia.
  - destruct (integer_rule_decides (VL := Codec.layer) operatorEq
                (mkValue Int32Value []) (Codec.Int64 5)) as (A & _);
      [discriminate | discriminate | discriminate
      | left; split; discriminate | reflexivity | reflexivity |].
    apply (A 0). reflexivity.
Defined.

(** The fallback on a String against an Int64 and on a Bool against numbers. *)
Lemma fallback_all_false_witness :
  (forall op, compare (VL := Codec.layer) op (Codec.String [x35]) (Codec.Int64 5)
              = Return false None)
  /\ IsNotEqual (VL := Codec.layer) (Codec.String [x35]) (Codec.Int64 5)
     = Return true None
  /\ (forall op, compare (VL := Codec.layer) op (Codec.Bool true)
                   (Codec.Float64bits 0x3FF8000000000000)
                 = Return false None)
  /\ (forall op, compare (VL := Codec.layer) op (Codec.Uint64 1)
                   (Codec.Bool true)
                 = Return false None).
Proof.
  destruct (fallback_all_false (VL := Codec.layer)) as (_ & H2 & H3).
  split; [| split; [| split]].
  - apply (H2 (Codec.String [x35]) (Codec.Int64 5)); reflexivity.
  - apply (H2 (Codec.String [x35]) (Codec.Int64 5)); reflexivity.
  - apply (H3 (Codec.Bool true) (Codec.Float64bits 0x3FF8000000000000)).
    + left. split; reflexivity.
    + left. split; discriminate.
  - apply (H3 (Codec.Uint64 1) (Codec.Bool true)).
    + right. split; reflexivity.
    + right. exists (NUint64 1), (NBool true), 1.
      repeat split; try reflexivity; [| discriminate].
      left. split; reflexivity.
Defined.

(** The negation law on an equal pair and on a pair that fails to decode. *)
Lemma IsNotEqual_negates_witness :
  IsNotEqual (VL := Codec.layer) (Codec.Int32 5) (Codec.Int64 5)
  = Return false None
  /\ IsNotEqual (VL := Codec.layer) (mkValue Int32Value []) (Codec.Int64 5)
     = Return false (Some (Codec.ErrMalformed Int32Value)).
Proof.
  split.
  - apply (proj1 (IsNotEqual_negates (VL := Codec.layer)
                    (Codec.Int32 5) (Codec.Int64 5)) true).
    reflexivity.
  - apply (proj2 (IsNotEqual_negates (VL := Codec.layer)
                    (mkValue Int32Value []) (Codec.Int64 5))).
    reflexivity.
Defined.

(** Uint64(2^63) against the floats 2^63, 2^70 and NaN. *)
Lemma uint64_overflow_ignores_float_witness :
  IsEqual (VL := Codec.layer) (Codec.Uint64 (2 ^ 63))
    (Codec.Float64bits 0x43E0000000000000) = Return false None
  /\ IsGreaterThan (VL := Codec.layer) (Codec.Uint64 (2 ^ 63))
       (Codec.Float64bits 0x4450000000000000) = Return true None
  /\ IsGreaterThan (VL := Codec.layer) (Codec.Uint64 (2 ^ 63))
       (Codec.Float64bits 0x7FF8000000000000) = Return true None
  /\ IsLesserThan (VL := Codec.layer) (Codec.Float64bits 0x4450000000000000)
       (Codec.Uint64 (2 ^ 63)) = Return true None.
Proof.
  destruct (uint64_overflow_ignores_float (VL := Codec.layer))
    as (H1 & H2 & H3).
  split; [| split; [| split]].
  - destruct (H3 (Codec.Uint64 (2 ^ 63)) (Codec.Float64bits 0x43E0000000000000)
                (2 ^ 63) (NFloat64 9223372036854775808%float)
                9223372036854775808%float 9223372036854775808%float)
      as (A & _ & _);
      [reflexivity | reflexivity | reflexivity | reflexivity | reflexivity
      | reflexivity | reflexivity |].
    apply A. reflexivity.
  - destruct (H3 (Codec.Uint64 (2 ^ 63)) (Codec.Float64bits 0x4450000000000000)
                (2 ^ 63) (NFloat64 1180591620717411303424%float)
                9223372036854775808%float 1180591620717411303424%float)
      as (_ & A & _);
      [reflexivity | reflexivity | reflexivity | reflexivity | reflexivity
      | reflexivity | reflexivity |].
    apply A. reflexivity.
  - destruct (H3 (Codec.Uint64 (2 ^ 63)) (Codec.Float64bits 0x7FF8000000000000)
                (2 ^ 63) (NFloat64 nan) 9223372036854775808%float nan)
      as (_ & _ & A);
      [reflexivity | reflexivity | reflexivity | reflexivity | reflexivity
      | reflexivity | reflexivity |].
    apply A. reflexivity.
  - apply (H2 (Codec.Float64bits 0x4450000000000000) (Codec.Uint64 (2 ^ 63))
             (2 ^ 63) (NFloat64 1180591620717411303424%float));
      reflexivity.
Defined.


(** The or-equal predicates on Uint64(2^64-1) against Int64(-1). *)
Lemma or_equal_is_strict_or_equal_witness :
  (true = true <-> true = true \/ false = true)
  /\ (false = true <-> false = true \/ false = true).
Proof.
  apply (or_equal_is_strict_or_equal (VL := Codec.layer)
           (Codec.Uint64 18446744073709551615) (Codec.Int64 (-1))
           false true true false false); reflexivity.
Defined.


(** ** Further properties of the comparator *)

Lemma bytes_Equal_sym (a b : list byte) : bytes_Equal a b = bytes_Equal b a.
Proof.
  apply eq_true_iff_eq. rewrite !bytes_Equal_eq. split; congruence.
Qed.

Lemma lex_lt_trans (a b c : list byte) : lex_lt a b -> lex_lt b c -> lex_lt a c.
Proof.
  intro H. revert c. induction H as [y b | x y a b Hxy | x a b Hab IH];
    intros c Hbc; inversion Hbc; subst.
  - constructor.
  - constructor.
  - apply lex_lt_head. now apply N.lt_trans with (Byte.to_N y).
  - now apply lex_lt_head.
  - now apply lex_lt_head.
  - apply lex_lt_tail. now apply IH.
Qed.

Lemma float_eq_sym (a b : float) : float_eq a b = float_eq b a.
Proof.
  unfold float_eq. rewrite !eqb_spec. unfold SFeqb.
  rewrite (SFcompare_antisym (Prim2SF a) (Prim2SF b)).
  destruct (SFcompare (Prim2SF a) (Prim2SF b)) as [[]|]; reflexivity.
Qed.

Section MoreProperties.
Context {error : Type} {VL : ValueLayer error}.

(** The null and direct rules on a pair whose tags differ and are not a
    String with a Bytes return nothing, and conversely. *)
Lemma direct_rule_None_inv (op : operator) (l r : Value) :
  direct_rule (error := error) op l r = None ->
  Type_ l <> Type_ r /\ ~ string_bytes_pair l r.
Proof.
  unfold direct_rule.
  destruct (ValueType_eqb (Type_ l) (Type_ r)
            || (ValueType_eqb (Type_ l) StringValue
                && ValueType_eqb (Type_ r) BytesValue)
            || (ValueType_eqb (Type_ r) StringValue
                && ValueType_eqb (Type_ l) BytesValue)) eqn:D;
    [discriminate 1 |].
  intros _. split.
  - apply ValueType_eqb_neq.
    destruct (ValueType_eqb (Type_ l) (Type_ r)); [discriminate D | reflexivity].
  - intros [[A B] | [A B]]; rewrite A, B in D; discriminate D.
Qed.

Lemma null_rule_None_inv (op : operator) (l r : Value) :
  null_rule (error := error) op l r = None ->
  Type_ l <> NullValue /\ Type_ r <> NullValue.
Proof.
  unfold null_rule.
  destruct (ValueType_eqb (Type_ l) NullValue
            || ValueType_eqb (Type_ r) NullValue) eqn:N.
  - destruct op; discriminate 1.
  - intros _. apply orb_false_iff in N as [Nl Nr].
    split; now apply ValueType_eqb_neq.
Qed.

(** What [compare] returns under the direct rule. *)
Lemma compare_direct (op : operator) (l r : Value) :
  Type_ l <> NullValue -> Type_ r <> NullValue ->
  directly_comparable l r ->
  compare op l r =
    Return match op with
           | operatorEq => bytes_Equal (Data l) (Data r)
           | operatorGt => bytes_Compare (Data l) (Data r) >? 0
           | operatorGte => bytes_Compare (Data l) (Data r) >=? 0
           | operatorLt => bytes_Compare (Data l) (Data r) <? 0
           | operatorLte => bytes_Compare (Data l) (Data r) <=? 0
           end None.
Proof.
  intros Hl Hr H. unfold compare.
  rewrite null_rule_None by assumption. unfold direct_rule.
  assert (D : ValueType_eqb (Type_ l) (Type_ r)
              || (ValueType_eqb (Type_ l) StringValue
                  && ValueType_eqb (Type_ r) BytesValue)
              || (ValueType_eqb (Type_ r) StringValue
                  && ValueType_eqb (Type_ l) BytesValue) = true).
  { destruct H as [H | [[A B] | [A B]]].
    - apply ValueType_eqb_eq in H. now rewrite H.
    - rewrite A, B. reflexivity.
    - rewrite A, B. reflexivity. }
  now rewrite D.
Qed.

(** *** The rules with the operands exchanged *)

Lemma null_rule_converse (op : operator) (a b : Value) :
  null_rule (error := error) (converse op) b a = null_rule op a b.
Proof.
  unfold null_rule.
  rewrite (orb_comm (ValueType_eqb (Type_ b) NullValue)),
    (ValueType_eqb_sym (Type_ b) (Type_ a)).
  destruct op; reflexivity.
Qed.

Lemma direct_rule_converse (op : operator) (a b : Value) :
  direct_rule (error := error) (converse op) b a = direct_rule op a b.
Proof.
  unfold direct_rule.
  rewrite (ValueType_eqb_sym (Type_ b) (Type_ a)).
  rewrite (bytes_Equal_sym (Data b) (Data a)),
    (bytes_Compare_antisym (Data a) (Data b)).
  destruct (ValueType_eqb (Type_ a) (Type_ b)),
    (ValueType_eqb (Type_ a) StringValue),
    (ValueType_eqb (Type_ b) BytesValue),
    (ValueType_eqb (Type_ b) StringValue),
    (ValueType_eqb (Type_ a) BytesValue); simpl; try reflexivity;
    destruct (bytes_Compare_range (Data a) (Data b)) as [E | [E | E]];
    rewrite E; destruct op; reflexivity.
Qed.

Lemma uint64_rule_converse (op : operator) (a b : Value)
    (res : option (outcome error)) :
  Type_ a <> Type_ b ->
  res = None \/ (exists x, res = Some (Return x None)) ->
  uint64_rule op a b = res -> uint64_rule (converse op) b a = res.
Proof.
  intros Hd Hres. unfold uint64_rule.
  destruct (ValueType_eqb (Type_ a) Uint64Value) eqn:Ua,
    (ValueType_eqb (Type_ b) Uint64Value) eqn:Ub; simpl.
  - apply ValueType_eqb_eq in Ua, Ub. congruence.
  - destruct (Decode a) as [la [ea|]];
      [intros <-; destruct Hres as [H | [x H]]; discriminate H |].
    destruct (Decode b) as [lb [eb|]];
      [intros <-; destruct Hres as [H | [x H]]; discriminate H |].
    destruct la; simpl;
      try (intros <-; destruct Hres as [H | [x H]]; discriminate H).
    destruct (u >? MaxInt64); [| exact (fun H => H)].
    destruct op; exact (fun H => H).
  - destruct (Decode a) as [la [ea|]];
      [intros <-; destruct Hres as [H | [x H]]; discriminate H |].
    destruct (Decode b) as [lb [eb|]];
      [intros <-; destruct Hres as [H | [x H]]; discriminate H |].
    destruct lb; simpl;
      try (intros <-; destruct Hres as [H | [x H]]; discriminate H).
    destruct (u >? MaxInt64); [| exact (fun H => H)].
    destruct op; exact (fun H => H).
  - exact (fun H => H).
Qed.

Lemma integer_rule_converse (op : operator) (a b : Value)
    (res : option (outcome error)) :
  res = None \/ (exists x, res = Some (Return x None)) ->
  integer_rule op a b = res -> integer_rule (converse op) b a = res.
Proof.
  intros Hres. unfold integer_rule.
  rewrite (andb_comm (IsInteger (Type_ b))).
  destruct (IsInteger (Type_ a) && IsInteger (Type_ b)); [| exact (fun H => H)].
  destruct (DecodeToInt64 a) as [ai [ea|]];
    [intros <-; destruct Hres as [H | [x H]]; discriminate H |].
  destruct (DecodeToInt64 b) as [bi [eb|]];
    [intros <-; destruct Hres as [H | [x H]]; discriminate H |].
  intros <-. do 2 f_equal.
  destruct op; simpl;
    auto using Z.eqb_sym, Z.gtb_ltb, Z.geb_leb, eq_sym.
Qed.

Lemma number_rule_converse (op : operator) (a b : Value)
    (res : option (outcome error)) :
  res = None \/ (exists x, res = Some (Return x None)) ->
  number_rule op a b = res -> number_rule (converse op) b a = res.
Proof.
  intros Hres. unfold number_rule.
  rewrite (andb_comm (IsNumber (Type_ b))).
  destruct (IsNumber (Type_ a) && IsNumber (Type_ b)); [| exact (fun H => H)].
  destruct (DecodeToFloat64 a) as [af [ea|]];
    [intros <-; destruct Hres as [H | [x H]]; discriminate H |].
  destruct (DecodeToFloat64 b) as [bf [eb|]];
    [intros <-; destruct Hres as [H | [x H]]; discriminate H |].
  intros <-. do 2 f_equal.
  destruct op; simpl; try reflexivity. apply float_eq_sym.
Qed.

(** A comparison that returns without error returns the same boolean when
    the operands are exchanged and the operator is turned round. *)
Lemma compare_converse (op : operator) (a b : Value) (x : bool) :
  compare op a b = Return x None ->
  compare (converse op) b a = Return x None.
Proof.
  unfold compare. rewrite null_rule_converse, direct_rule_converse.
  destruct (null_rule op a b) as [res|] eqn:N; [exact (fun H => H) |].
  destruct (direct_rule op a b) as [res|] eqn:D; [exact (fun H => H) |].
  apply direct_rule_None_inv in D as [Hd _].
  destruct (uint64_rule op a b) as [res|] eqn:U.
  - intros ->.
    rewrite (uint64_rule_converse op a b (Some (Return x None)));
      eauto.
  - rewrite (uint64_rule_converse op a b None); auto.
    unfold compare_decoded.
    destruct (integer_rule op a b) as [res|] eqn:I.
    + intros ->.
      rewrite (integer_rule_converse op a b (Some (Return x None))); eauto.
    + rewrite (integer_rule_converse op a b None); auto.
      destruct (number_rule op a b) as [res|] eqn:Nm.
      * intros ->.
        rewrite (number_rule_converse op a b (Some (Return x None))); eauto.
      * rewrite (number_rule_converse op a b None); auto.
Qed.

Lemma null_rule_Some (op : operator) (l r : Value) (o : outcome error) :
  null_rule op l r = Some o -> exists x, o = Return x None.
Proof.
  unfold null_rule.
  destruct (ValueType_eqb (Type_ l) NullValue
            || ValueType_eqb (Type_ r) NullValue); [| discriminate 1].
  destruct op; intro H; injection H as <-; eauto.
Qed.

Lemma direct_rule_Some (op : operator) (l r : Value) (o : outcome error) :
  direct_rule op l r = Some o -> exists x, o = Return x None.
Proof.
  unfold direct_rule.
  destruct (ValueType_eqb (Type_ l) (Type_ r)
            || (ValueType_eqb (Type_ l) StringValue
                && ValueType_eqb (Type_ r) BytesValue)
            || (ValueType_eqb (Type_ r) StringValue
                && ValueType_eqb (Type_ l) BytesValue)); [| discriminate 1].
  intro H; injection H as <-; eauto.
Qed.

(** X1 (reflexivity).  Every value, whatever its tag and payload, is equal
    to itself: on [(a, a)] the predicates [IsEqual], [IsGreaterThanOrEqual]
    and [IsLesserThanOrEqual] return true, [IsNotEqual], [IsGreaterThan] and
    [IsLesserThan] return false, all without error and without decoding. *)
Theorem compare_reflexive (a : Value) :
  IsEqual a a = Return true None
  /\ IsNotEqual a a = Return false None
  /\ IsGreaterThan a a = Return false None
  /\ IsGreaterThanOrEqual a a = Return true None
  /\ IsLesserThan a a = Return false None
  /\ IsLesserThanOrEqual a a = Return true None.
Proof.
  assert (H : forall op, compare op a a = Return (op_holds op VEqual) None).
  { intro op. unfold compare, null_rule, direct_rule.
    rewrite ValueType_eqb_refl. simpl.
    assert (E : bytes_Equal (Data a) (Data a) = true) by now apply bytes_Equal_eq.
    assert (C : bytes_Compare (Data a) (Data a) = 0) by now apply bytes_Compare_eq.
    rewrite E, C.
    destruct (ValueType_eqb (Type_ a) NullValue); destruct op; reflexivity. }
  unfold IsNotEqual, IsEqual, IsGreaterThan, IsGreaterThanOrEqual,
    IsLesserThan, IsLesserThanOrEqual.
  rewrite !H. repeat split.
Qed.

(** X2 (symmetry of equality).  If [IsEqual a b] returns [x] without error,
    so does [IsEqual b a], and [IsNotEqual b a] returns the negation of [x]. *)
Theorem IsEqual_symmetric (a b : Value) (x : bool) :
  IsEqual a b = Return x None ->
  IsEqual b a = Return x None /\ IsNotEqual b a = Return (negb x) None.
Proof.
  intro H. apply (compare_converse operatorEq) in H.
  unfold IsNotEqual, IsEqual. simpl in H. rewrite H. split; reflexivity.
Qed.

(** X3 (greater and lesser are converse).  If one of the four ordering
    predicates returns [x] without error on [(a, b)], the predicate of the
    opposite direction returns [x] without error on [(b, a)]. *)
Theorem ordering_converse (a b : Value) (x : bool) :
  (IsGreaterThan a b = Return x None -> IsLesserThan b a = Return x None)
  /\ (IsGreaterThanOrEqual a b = Return x None ->
      IsLesserThanOrEqual b a = Return x None)
  /\ (IsLesserThan a b = Return x None -> IsGreaterThan b a = Return x None)
  /\ (IsLesserThanOrEqual a b = Return x None ->
      IsGreaterThanOrEqual b a = Return x None).
Proof.
  unfold IsGreaterThan, IsGreaterThanOrEqual, IsLesserThan,
    IsLesserThanOrEqual.
  split; [| split; [| split]]; intro H.
  - exact (compare_converse operatorGt a b x H).
  - exact (compare_converse operatorGte a b x H).
  - exact (compare_converse operatorLt a b x H).
  - exact (compare_converse operatorLte a b x H).
Qed.

(** X4 (no panic).  If [Decode], whenever it succeeds on a value tagged
    Uint64, hands back a uint64, then no predicate panics, whatever the
    operands. *)
Theorem compare_never_panics :
  (forall (v : Value) (lv : native),
      Type_ v = Uint64Value -> Decode v = (lv, None) ->
      exists u, lv = NUint64 u) ->
  forall (op : operator) (l r : Value),
    compare op l r <> Panic /\ IsNotEqual l r <> Panic.
Proof.
  intros Hc.
  assert (U : forall op l r, uint64_rule op l r <> Some Panic).
  { intros op l r. unfold uint64_rule.
    destruct (ValueType_eqb (Type_ l) Uint64Value) eqn:Ul; simpl.
    - apply ValueType_eqb_eq in Ul.
      destruct (Decode l) as [lv [e|]] eqn:Dl; [discriminate |].
      destruct (Decode r) as [rv [e|]]; [discriminate |].
      destruct (Hc l lv Ul Dl) as [u ->]. simpl.
      destruct (u >? MaxInt64); [destruct op |]; discriminate.
    - destruct (ValueType_eqb (Type_ r) Uint64Value) eqn:Ur;
        [| discriminate].
      apply ValueType_eqb_eq in Ur.
      destruct (Decode l) as [lv [e|]]; [discriminate |].
      destruct (Decode r) as [rv [e|]] eqn:Dr; [discriminate |].
      destruct (Hc r rv Ur Dr) as [u ->]. simpl.
      destruct (u >? MaxInt64); [destruct op |]; discriminate. }
  assert (C : forall op l r, compare op l r <> Panic).
  { intros op l r. unfold compare, compare_decoded.
    destruct (null_rule op l r) as [o|] eqn:N.
    { apply null_rule_Some in N as [x ->]. discriminate. }
    destruct (direct_rule op l r) as [o|] eqn:D.
    { apply direct_rule_Some in D as [x ->]. discriminate. }
    destruct (uint64_rule op l r) as [o|] eqn:E.
    { intros ->. now apply (U op l r). }
    unfold integer_rule, number_rule.
    destruct (IsInteger (Type_ l) && IsInteger (Type_ r)).
    { destruct (DecodeToInt64 l) as [ai [e|]]; [discriminate |].
      destruct (DecodeToInt64 r) as [bi [e|]]; discriminate. }
    destruct (IsNumber (Type_ l) && IsNumber (Type_ r)); [| discriminate].
    destruct (DecodeToFloat64 l) as [af [e|]]; [discriminate |].
    destruct (DecodeToFloat64 r) as [bf [e|]]; discriminate. }
  intros op l r. split; [apply C |].
  unfold IsNotEqual, IsEqual. pose proof (C operatorEq l r) as H.
  destruct (compare operatorEq l r) as [ok [e|]|]; try discriminate.
  contradiction.
Qed.

(** The operand [l] or [r] on which a decoder returned the error [e]. *)
Lemma compare_decoded_error (op : operator) (l r : Value) (x : bool) (e : error) :
  compare_decoded op l r = Return x (Some e) ->
  x = false
  /\ exists v, (v = l \/ v = r)
               /\ (snd (DecodeToInt64 v) = Some e
                   \/ snd (DecodeToFloat64 v) = Some e).
Proof.
  unfold compare_decoded, integer_rule, number_rule.
  destruct (IsInteger (Type_ l) && IsInteger (Type_ r)).
  { destruct (DecodeToInt64 l) as [ai [e0|]] eqn:Dl.
    { intro H. injection H as <- <-. split; [reflexivity |].
      exists l. rewrite Dl. simpl. tauto. }
    destruct (DecodeToInt64 r) as [bi [e0|]] eqn:Dr; [| discriminate 1].
    intro H. injection H as <- <-. split; [reflexivity |].
    exists r. rewrite Dr. simpl. tauto. }
  destruct (IsNumber (Type_ l) && IsNumber (Type_ r)); [| discriminate 1].
  destruct (DecodeToFloat64 l) as [af [e0|]] eqn:Dl.
  { intro H. injection H as <- <-. split; [reflexivity |].
    exists l. rewrite Dl. simpl. tauto. }
  destruct (DecodeToFloat64 r) as [bf [e0|]] eqn:Dr; [| discriminate 1].
  intro H. injection H as <- <-. split; [reflexivity |].
  exists r. rewrite Dr. simpl. tauto.
Qed.

Lemma uint64_rule_error (op : operator) (l r : Value) (x : bool) (e : error) :
  uint64_rule op l r = Some (Return x (Some e)) ->
  x = false
  /\ exists v, (v = l \/ v = r) /\ snd (Decode v) = Some e.
Proof.
  unfold uint64_rule.
  destruct (ValueType_eqb (Type_ l) Uint64Value
            || ValueType_eqb (Type_ r) Uint64Value); [| discriminate 1].
  destruct (Decode l) as [lv [e0|]] eqn:Dl.
  { intro H. injection H as <- <-. split; [reflexivity |].
    exists l. rewrite Dl. simpl. tauto. }
  destruct (Decode r) as [rv [e0|]] eqn:Dr.
  { intro H. injection H as <- <-. split; [reflexivity |].
    exists r. rewrite Dr. simpl. tauto. }
  destruct (if ValueType_eqb (Type_ l) Uint64Value then assert_uint64 lv
            else if ValueType_eqb (Type_ r) Uint64Value then assert_uint64 rv
                 else Some 0) as [ui|]; [| discriminate 1].
  destruct (ui >? MaxInt64); [destruct op |]; discriminate 1.
Qed.

(** X5 (errors are decode errors).  When a comparison returns an error, its
    boolean is false, the operands have distinct non-Null tags, and the error
    is the one a decoder returned on one of the two operands. *)
Theorem compare_error_is_decode_error (op : operator) (l r : Value)
    (x : bool) (e : error) :
  compare op l r = Return x (Some e) ->
  x = false
  /\ Type_ l <> Type_ r /\ Type_ l <> NullValue /\ Type_ r <> NullValue
  /\ exists v, (v = l \/ v = r)
               /\ (snd (Decode v) = Some e
                   \/ snd (DecodeToInt64 v) = Some e
                   \/ snd (DecodeToFloat64 v) = Some e).
Proof.
  unfold compare.
  destruct (null_rule op l r) as [o|] eqn:N.
  { apply null_rule_Some in N as [y ->]. discriminate 1. }
  destruct (direct_rule op l r) as [o|] eqn:D.
  { apply direct_rule_Some in D as [y ->]. discriminate 1. }
  apply null_rule_None_inv in N as [Nl Nr].
  apply direct_rule_None_inv in D as [Hd _].
  destruct (uint64_rule op l r) as [o|] eqn:U.
  - intros ->. apply uint64_rule_error in U as (Hx & v & Hv & He).
    repeat split; try assumption. exists v. tauto.
  - intro H. apply compare_decoded_error in H as (Hx & v & Hv & He).
    repeat split; try assumption. exists v. tauto.
Qed.

(** X6 (one answer for all operators).  On a given pair the predicates fail
    together or succeed together: if one operator returns an error, every
    operator and [IsNotEqual] return that same error with false; if one
    operator returns without error, the pair is comparable. *)
Theorem compare_fails_for_all_operators (op : operator) (l r : Value) (x : bool) :
  (forall e : error,
      compare op l r = Return x (Some e) ->
      (forall op', compare op' l r = Return false (Some e))
      /\ IsNotEqual l r = Return false (Some e))
  /\ (compare op l r = Return x None -> comparable l r).
Proof.
  destruct (compare_verdict l r) as [(e' & He) | [Hp | (v & Hv & _)]].
  - split.
    + intros e H. rewrite He in H. injection H as <- <-.
      split; [exact He |]. unfold IsNotEqual, IsEqual. now rewrite He.
    + rewrite He. discriminate 1.
  - split; [intro e |]; rewrite Hp; discriminate 1.
  - split.
    + intro e. rewrite Hv. discriminate 1.
    + intros _ op'. rewrite Hv. eauto.
Qed.

Lemma directly_comparable_trans (a b c : Value) :
  directly_comparable a b -> directly_comparable b c ->
  directly_comparable a c.
Proof.
  unfold directly_comparable, string_bytes_pair.
  intros [E1 | [[A1 B1] | [A1 B1]]] [E2 | [[A2 B2] | [A2 B2]]];
    try (left; congruence); try (right; left; split; congruence);
    try (right; right; split; congruence).
Qed.

(** X7 (order within a type).  On non-Null values that the direct rule
    compares (equal tags, or Strings with Bytes), [IsEqual], [IsLesserThan],
    [IsLesserThanOrEqual], [IsGreaterThan] and [IsGreaterThanOrEqual] are
    transitive. *)
Theorem direct_order_transitive (op : operator) (a b c : Value) :
  Type_ a <> NullValue -> Type_ b <> NullValue -> Type_ c <> NullValue ->
  directly_comparable a b -> directly_comparable b c ->
  compare op a b = Return true None ->
  compare op b c = Return true None ->
  compare op a c = Return true None.
Proof.
  intros Ha Hb Hc Hab Hbc.
  pose proof (directly_comparable_trans a b c Hab Hbc) as Hac.
  rewrite !compare_direct by assumption.
  intros H1 H2. injection H1 as H1. injection H2 as H2. f_equal.
  assert (L : forall u v : list byte,
             bytes_Compare u v <= 0 <-> lex_lt u v \/ u = v).
  { intros u v. rewrite <- bytes_Compare_lt, <- bytes_Compare_eq. lia. }
  assert (T : forall u v w : list byte,
             bytes_Compare u v <= 0 -> bytes_Compare v w <= 0 ->
             bytes_Compare u w <= 0).
  { intros u v w. rewrite !L. intros [A | ->] [B | ->]; auto.
    left. now apply lex_lt_trans with v. }
  destruct op.
  - apply bytes_Equal_eq in H1, H2. apply bytes_Equal_eq. congruence.
  - rewrite Z.gtb_ltb, Z.ltb_lt in *.
    apply Z.gt_lt, bytes_Compare_gt. apply Z.lt_gt, bytes_Compare_gt in H1, H2.
    now apply lex_lt_trans with (Data b).
  - rewrite Z.geb_leb, Z.leb_le in *.
    rewrite (bytes_Compare_antisym (Data c) (Data a)).
    rewrite (bytes_Compare_antisym (Data b) (Data a)) in H1.
    rewrite (bytes_Compare_antisym (Data c) (Data b)) in H2.
    pose proof (T (Data c) (Data b) (Data a)). lia.
  - rewrite Z.ltb_lt in *. apply bytes_Compare_lt.
    apply bytes_Compare_lt in H1, H2. now apply lex_lt_trans with (Data b).
  - rewrite Z.leb_le in *. now apply T with (Data b).
Qed.

End MoreProperties.

(** Symmetry on Int32(5) against Float64(5.0). *)
Lemma IsEqual_symmetric_witness :
  IsEqual (VL := Codec.layer) (Codec.Float64bits 0x4014000000000000)
    (Codec.Int32 5) = Return true None
  /\ IsNotEqual (VL := Codec.layer) (Codec.Float64bits 0x4014000000000000)
       (Codec.Int32 5) = Return false None.
Proof.
  apply (IsEqual_symmetric (VL := Codec.layer) (Codec.Int32 5)
           (Codec.Float64bits 0x4014000000000000) true).
  reflexivity.
Defined.

(** The converse on Uint64(2^64-1) against Int64(-1). *)
Lemma ordering_converse_witness :
  IsLesserThan (VL := Codec.layer) (Codec.Int64 (-1))
    (Codec.Uint64 18446744073709551615) = Return true None
  /\ IsGreaterThanOrEqual (VL := Codec.layer) (Codec.Int64 (-1))
       (Codec.Uint64 18446744073709551615) = Return false None.
Proof.
  split.
  - apply (proj1 (ordering_converse (VL := Codec.layer)
                    (Codec.Uint64 18446744073709551615) (Codec.Int64 (-1))
                    true)).
    reflexivity.
  - apply (proj2 (proj2 (proj2 (ordering_converse (VL := Codec.layer)
                    (Codec.Uint64 18446744073709551615) (Codec.Int64 (-1))
                    false)))).
    reflexivity.
Defined.

(** [Codec] hands back a uint64 for a Uint64: its predicates do not panic,
    here on a Uint64 with a truncated payload. *)
Lemma compare_never_panics_witness :
  (forall (v : Value) (lv : native),
      Type_ v = Uint64Value -> Decode (ValueLayer := Codec.layer) v = (lv, None) ->
      exists u, lv = NUint64 u)
  /\ compare (VL := Codec.layer) operatorGt (mkValue Uint64Value [x01])
       (Codec.Int8 3) <> Panic.
Proof.
  assert (H : forall (v : Value) (lv : native),
             Type_ v = Uint64Value ->
             Decode (ValueLayer := Codec.layer) v = (lv, None) ->
             exists u, lv = NUint64 u).
  { intros [t d] lv Ht. simpl in Ht. subst t.
    simpl. unfold Codec.decode. simpl.
    destruct (Codec.well_sized _); intro E; [| discriminate E].
    injection E as <-. eauto. }
  split; [exact H |].
  apply (compare_never_panics (VL := Codec.layer) H).
Defined.

(** An Int32 with an empty payload against Int64(5): the error is the one
    [DecodeToInt64] returns on the left operand, for every operator. *)
Lemma compare_error_is_decode_error_witness :
  false = false
  /\ Int32Value <> Int64Value /\ Int32Value <> NullValue
  /\ Int64Value <> NullValue
  /\ exists v,
      (v = mkValue Int32Value [] \/ v = Codec.Int64 5)
      /\ (snd (Decode (ValueLayer := Codec.layer) v)
          = Some (Codec.ErrMalformed Int32Value)
          \/ snd (DecodeToInt64 (ValueLayer := Codec.layer) v)
             = Some (Codec.ErrMalformed Int32Value)
          \/ snd (DecodeToFloat64 (ValueLayer := Codec.layer) v)
             = Some (Codec.ErrMalformed Int32Value)).
Proof.
  apply (compare_error_is_decode_error (VL := Codec.layer) operatorLt
           (mkValue Int32Value []) (Codec.Int64 5) false
           (Codec.ErrMalformed Int32Value)).
  reflexivity.
Defined.

Lemma compare_fails_for_all_operators_witness :
  (forall op', compare (VL := Codec.layer) op' (mkValue Int32Value [])
                 (Codec.Int64 5)
               = Return false (Some (Codec.ErrMalformed Int32Value)))
  /\ comparable (VL := Codec.layer) (Codec.Int32 5) (Codec.Int64 5).
Proof.
  split.
  - apply (proj1 (compare_fails_for_all_operators (VL := Codec.layer)
                    operatorLt (mkValue Int32Value []) (Codec.Int64 5) false)
             (Codec.ErrMalformed Int32Value)).
    reflexivity.
  - apply (proj2 (compare_fails_for_all_operators (VL := Codec.layer)
                    operatorEq (Codec.Int32 5) (Codec.Int64 5) true)).
    reflexivity.
Defined.

(** String "a" is lesser than Bytes "ab", itself lesser than String "b". *)
Lemma direct_order_transitive_witness :
  compare (VL := Codec.layer) operatorLt (Codec.String [x61])
    (Codec.String [x62]) = Return true None.
Proof.
  apply (direct_order_transitive (VL := Codec.layer) operatorLt
           (Codec.String [x61]) (Codec.Bytes [x61; x62]) (Codec.String [x62]));
    try discriminate; try reflexivity.
  - right. left. split; reflexivity.
  - right. right. split; reflexivity.
Defined.

(** ** Properties of the generator *)

Import Generator.

Lemma slice_set_middle {A : Type} (done : list A) (y : A) (rest : list A) (x : A) :
  slice_set (done ++ y :: rest) (length done) x = Some (done ++ x :: rest).
Proof.
  induction done as [|d done IH]; simpl; [reflexivity |]. now rewrite IH.
Qed.

Lemma fold_append {A : Type} (l acc : list A) :
  fold_left (fun acc k => acc ++ [k]) l acc = acc ++ l.
Proof.
  revert acc. induction l as [|k l IH]; intro acc; simpl.
  - now rewrite app_nil_r.
  - rewrite IH, <- app_assoc. reflexivity.
Qed.

Lemma last_cons_default {A : Type} (l : list A) (x d : A) :
  last (x :: l) d = last l x.
Proof.
  revert x d. induction l as [|y l IH]; intros x d; [reflexivity |].
  change (last (x :: y :: l) d) with (last (y :: l) d).
  rewrite IH. symmetry. apply IH.
Qed.

Section GeneratorFacts.
Local Open Scope string_scope.
Context {reader world writer ast_File error recordContext : Type}.
Context (ReadFrom : reader -> world -> String.string * option error * world).
Context (ParseFile : String.string -> option ast_File * option error).
Context (File_Name : ast_File -> String.string).
Context (zero_recordContext : recordContext).
Context (lookupRecord :
           recordContext -> option ast_File -> String.string ->
           recordContext * bool * option error).
Context (errors_New : String.string -> error).
Context (range_keys : gomap -> list String.string).
Context (ExecuteTemplate : genContext recordContext -> list byte * option error).
Context (imports_Process : list byte -> list byte * option error).
Context (Write : writer -> list byte -> writer * option error).

(** *** readSources *)

Lemma read_all_error (srcs : list reader) (w w' : world)
    (afs : list (option ast_File)) (e : error) :
  read_all ReadFrom ParseFile srcs w = (afs, Some e, w') -> afs = [].
Proof.
  destruct srcs as [|r rest]; simpl; [discriminate 1 |].
  destruct (ReadFrom r w) as [[content [e0|]] w1]; [congruence |].
  destruct (ParseFile content) as [af [e0|]]; [congruence |].
  destruct (read_all ReadFrom ParseFile rest w1) as [[afs' [e0|]] w2];
    congruence.
Qed.

Lemma readSources_loop_read_all (srcs : list reader) :
  forall (done tail : list (option ast_File)) (w : world),
    readSources_loop ReadFrom ParseFile (length done) srcs
      (done ++ repeat None (length srcs) ++ tail) w
    = Returns
        (let '(files, err, w') := read_all ReadFrom ParseFile srcs w in
         match err with
         | Some e => ([], Some e, w')
         | None => (done ++ files ++ tail, None, w')
         end).
Proof.
  induction srcs as [|r rest IH]; intros done tail w; simpl; [reflexivity |].
  destruct (ReadFrom r w) as [[content [e|]] w1]; [reflexivity |].
  destruct (ParseFile content) as [af [e|]]; [reflexivity |].
  rewrite slice_set_middle.
  replace (S (length done)) with (length (done ++ [af]))
    by (rewrite length_app; simpl; lia).
  replace (done ++ af :: repeat None (length rest) ++ tail)
    with ((done ++ [af]) ++ repeat None (length rest) ++ tail)
    by (rewrite <- app_assoc; reflexivity).
  rewrite IH.
  destruct (read_all ReadFrom ParseFile rest w1) as [[afs [e|]] w2];
    [reflexivity |].
  rewrite <- app_assoc. reflexivity.
Qed.

(** [readSources] computes [read_all]: the slice and its index add nothing. *)
Lemma readSources_read_all (srcs : list reader) (w : world) :
  readSources ReadFrom ParseFile srcs w
  = Returns (read_all ReadFrom ParseFile srcs w).
Proof.
  unfold readSources.
  pose proof (readSources_loop_read_all srcs [] [] w) as H.
  simpl in H. rewrite app_nil_r in H. rewrite H.
  destruct (read_all ReadFrom ParseFile srcs w) as [[afs [e|]] w'] eqn:E.
  - apply read_all_error in E. now subst.
  - now rewrite app_nil_r.
Qed.


(** X9 (readSources, failure).  When [readSources] returns an error it
    returns a nil slice, and the error is that of the first source that
    cannot be read or parsed: the sources before it were read and parsed,
    and the sources after it are not read, the result being the same
    whatever follows the failing source. *)
Theorem readSources_failure (srcs : list reader) (w w' : world)
    (afs : list (option ast_File)) (e : error) :
  readSources ReadFrom ParseFile srcs w = Returns (afs, Some e, w') ->
  afs = []
  /\ exists (pre : list reader) (r : reader) (post : list reader),
      srcs = pre ++ r :: post
      /\ (exists afs0 w0,
             readSources ReadFrom ParseFile pre w = Returns (afs0, None, w0)
             /\ ((exists content, ReadFrom r w0 = (content, Some e, w'))
                 \/ (exists content af,
                        ReadFrom r w0 = (content, None, w')
                        /\ ParseFile content = (af, Some e))))
      /\ (forall post',
             readSources ReadFrom ParseFile (pre ++ r :: post') w
             = Returns ([], Some e, w')).
Proof.
  rewrite readSources_read_all. intro H. injection H as H.
  split; [now apply read_all_error in H |].
  revert w afs H. induction srcs as [|r rest IH]; intros w afs; simpl;
    [discriminate 1 |].
  destruct (ReadFrom r w) as [[content [e0|]] w1] eqn:R.
  { intro H. injection H as _ <- <-. exists [], r, rest.
    split; [reflexivity |]. split.
    - exists [], w. split; [reflexivity |]. left. eauto.
    - intro post'. rewrite readSources_read_all. simpl. now rewrite R. }
  destruct (ParseFile content) as [af [e0|]] eqn:P.
  { intro H. injection H as _ <- <-. exists [], r, rest.
    split; [reflexivity |]. split.
    - exists [], w. split; [reflexivity |]. right. eauto.
    - intro post'. rewrite readSources_read_all. simpl. now rewrite R, P. }
  destruct (read_all ReadFrom ParseFile rest w1) as [[afs' [e0|]] w2] eqn:A;
    [| discriminate 1].
  intro H. injection H as _ <- <-.
  destruct (IH w1 afs' A) as (pre & r' & post & -> & (afs0 & w0 & Hpre & Hr) & Hpost).
  exists (r :: pre), r', post. split; [reflexivity |]. split.
  - rewrite readSources_read_all in Hpre. injection Hpre as Hpre.
    exists (af :: afs0), w0. split; [| exact Hr].
    rewrite readSources_read_all. simpl. now rewrite R, P, Hpre.
  - intro post'. specialize (Hpost post').
    rewrite readSources_read_all in Hpost. injection Hpost as Hpost.
    rewrite readSources_read_all. simpl. now rewrite R, P, Hpost.
Qed.

(** *** readPackage *)

(** The loop of [readPackage] once a package name has been seen. *)
Lemma readPackage_loop_from (p : String.string) (files : list ast_File) :
  p <> "" ->
  (Forall (fun f => File_Name f = p) files
   /\ readPackage_loop File_Name errors_New p (map Some files)
      = Returns (p, None))
  \/ (Exists (fun f => File_Name f <> p) files
      /\ readPackage_loop File_Name errors_New p (map Some files)
         = Returns
             (p, Some (errors_New "input files must belong to the same package"))).
Proof.
  intro Hp. assert (Hp' : String.eqb p "" = false) by now apply String.eqb_neq.
  induction files as [|f files IH]; simpl.
  - left. split; [constructor | reflexivity].
  - rewrite Hp'. simpl.
    destruct (String.eqb p (File_Name f)) eqn:E; simpl.
    + apply String.eqb_eq in E. rewrite <- E.
      destruct IH as [[A B] | [A B]].
      * left. split; [constructor; auto | exact B].
      * right. split; [now apply Exists_cons_tl | exact B].
    + apply String.eqb_neq in E. right.
      split; [| reflexivity]. apply Exists_cons_hd. congruence.
Qed.

(** X10 (readPackage, same package).  On files the first of which has a
    non-empty package name: if every other file has that same package name,
    [readPackage] sets [Pkg] to it and returns no error; if some file has
    another one, it returns the error "input files must belong to the same
    package" and leaves the context as it was. *)
Theorem readPackage_same_package (g : genContext recordContext)
    (f0 : ast_File) (files : list ast_File) :
  File_Name f0 <> "" ->
  (Forall (fun f => File_Name f = File_Name f0) files
   /\ readPackage File_Name errors_New g (map Some (f0 :: files))
      = Returns
          (mkGenContext (File_Name f0) (Imports g) (Records g) (Results g),
           None))
  \/ (Exists (fun f => File_Name f <> File_Name f0) files
      /\ readPackage File_Name errors_New g (map Some (f0 :: files))
         = Returns
             (g, Some (errors_New "input files must belong to the same package"))).
Proof.
  intro H0. unfold readPackage. simpl.
  destruct (readPackage_loop_from (File_Name f0) files H0) as [[A B] | [A B]];
    rewrite B; [left | right]; auto.
Qed.

(** X11 (readPackage, what it changes).  On files none of which is nil,
    [readPackage] does not panic; when it returns an error, the error is
    "input files must belong to the same package" and the context is
    unchanged; when it returns none, only [Pkg] has changed, to the package
    name of the last file, or to the empty string when there is no file. *)
Theorem readPackage_frame (g : genContext recordContext)
    (files : list ast_File) :
  exists (g' : genContext recordContext) (err : option error),
    readPackage File_Name errors_New g (map Some files) = Returns (g', err)
    /\ match err with
       | Some e =>
           g' = g
           /\ e = errors_New "input files must belong to the same package"
       | None =>
           g' = mkGenContext (last (map File_Name files) "") (Imports g)
                  (Records g) (Results g)
       end.
Proof.
  assert (L : forall (fs : list ast_File) (pkg : String.string),
             readPackage_loop File_Name errors_New pkg (map Some fs)
             = Returns (last (map File_Name fs) pkg, None)
             \/ exists p,
                 readPackage_loop File_Name errors_New pkg (map Some fs)
                 = Returns
                     (p, Some (errors_New
                                 "input files must belong to the same package"))).
  { induction fs as [|f fs IH]; intro pkg; simpl; [now left |].
    destruct (negb (String.eqb pkg "")
              && negb (String.eqb pkg (File_Name f))); [right; eauto |].
    destruct (IH (File_Name f)) as [H | H]; [left | right; exact H].
    rewrite H. f_equal. f_equal.
    rewrite <- (last_cons_default (map File_Name fs) (File_Name f) pkg).
    reflexivity. }
  unfold readPackage. destruct (L files "") as [H | [p H]]; rewrite H.
  - eexists _, None. split; reflexivity.
  - eexists _, (Some _). split; [reflexivity |]. split; reflexivity.
Qed.

(** *** selectImports *)

Lemma imports_map_cases (g : genContext recordContext) :
  imports_map g =
    match Records g, Results g with
    | [], [] => []
    | [], _ :: _ =>
        [("github.com/asdine/genji/record", 1);
         ("github.com/asdine/genji/table", 1)]
    | _ :: _, [] =>
        [("errors", 1);
         ("github.com/asdine/genji", 1);
         ("github.com/asdine/genji/field", 1);
         ("github.com/asdine/genji/query", 1);
         ("github.com/asdine/genji/record", 1);
         ("github.com/asdine/genji/table", 1);
         ("github.com/asdine/genji/index", 1)]
    | _ :: _, _ :: _ =>
        [("errors", 1);
         ("github.com/asdine/genji", 1);
         ("github.com/asdine/genji/field", 1);
         ("github.com/asdine/genji/query", 1);
         ("github.com/asdine/genji/record", 2);
         ("github.com/asdine/genji/table", 2);
         ("github.com/asdine/genji/index", 1)]
    end.
Proof.
  unfold imports_map. destruct (Records g), (Results g); reflexivity.
Qed.

(** X12 (selectImports).  Whatever order [range] goes through the map in,
    [selectImports] leaves in [Imports] no package twice, although two of
    them are counted twice when there are both records and results: the
    seven packages of the records when there is a record, the two packages
    of the results when there is a result, and nothing else; what
    [Imports] held before is dropped, and the other fields are kept. *)
Theorem selectImports_imports (g : genContext recordContext) :
  (forall m, Permutation.Permutation (range_keys m) (keys m)) ->
  let g' := selectImports range_keys g in
  NoDup (Imports g')
  /\ (forall k,
         In k (Imports g') <->
         (Records g <> []
          /\ In k ["errors"; "github.com/asdine/genji";
                   "github.com/asdine/genji/field";
                   "github.com/asdine/genji/query";
                   "github.com/asdine/genji/record";
                   "github.com/asdine/genji/table";
                   "github.com/asdine/genji/index"])
         \/ (Results g <> []
             /\ In k ["github.com/asdine/genji/record";
                      "github.com/asdine/genji/table"]))
  /\ length (Imports g') =
       match Records g, Results g with
       | _ :: _, _ => 7%nat
       | [], _ :: _ => 2%nat
       | [], [] => 0%nat
       end
  /\ Pkg g' = Pkg g /\ Records g' = Records g /\ Results g' = Results g.
Proof.
  intros Hperm g'.
  assert (E : Imports g' = range_keys (imports_map g)).
  { unfold g', selectImports. simpl. apply fold_append. }
  pose proof (Hperm (imports_map g)) as P. rewrite <- E in P.
  rewrite imports_map_cases in P.
  split; [| split; [| split]].
  - apply (Permutation.Permutation_NoDup (Permutation.Permutation_sym P)).
    destruct (Records g), (Results g); simpl;
      repeat (constructor;
              [simpl; intro H;
               repeat (destruct H as [H | H]; [discriminate H |]); exact H |]);
      constructor.
  - intro k. split.
    + intro H. apply (Permutation.Permutation_in _ P) in H.
      destruct (Records g), (Results g); simpl in H.
      * contradiction.
      * right. split; [discriminate | exact H].
      * left. split; [discriminate | exact H].
      * left. split; [discriminate | exact H].
    + intro H.
      apply (Permutation.Permutation_in _ (Permutation.Permutation_sym P)).
      destruct (Records g), (Results g);
        destruct H as [[A B] | [A B]];
        try (exfalso; apply A; reflexivity); try exact B.
      destruct B as [<- | [<- | []]].
      * do 4 right. left. reflexivity.
      * do 5 right. left. reflexivity.
  - rewrite (Permutation.Permutation_length P).
    destruct (Records g), (Results g); reflexivity.
  - repeat split.
Qed.

(** *** readTargets *)

Lemma nth_error_middle {A : Type} (done : list A) (y : A) (rest : list A) :
  nth_error (done ++ y :: rest) (length done) = Some y.
Proof. induction done as [|d done IH]; simpl; auto. Qed.

Lemma lookupTargets_lookup_all (srcs : list (option ast_File))
    (names : list String.string) :
  forall done tail : list recordContext,
    lookupTargets lookupRecord srcs names (length done)
      (done ++ repeat zero_recordContext (length names) ++ tail)
    = Returns
        (let (rcs, err) :=
           lookup_all zero_recordContext lookupRecord srcs names in
         (done ++ rcs
            ++ repeat zero_recordContext (length names - length rcs) ++ tail,
          err)).
Proof.
  induction names as [|name rest IH]; intros done tail; simpl;
    [reflexivity |].
  rewrite nth_error_middle.
  destruct (lookupSources lookupRecord zero_recordContext srcs name)
    as [rc' [e|]]; rewrite slice_set_middle.
  - simpl. now rewrite Nat.sub_0_r.
  - replace (S (length done)) with (length (done ++ [rc']))
      by (rewrite length_app; simpl; lia).
    replace (done ++ rc' :: repeat zero_recordContext (length rest) ++ tail)
      with ((done ++ [rc']) ++ repeat zero_recordContext (length rest) ++ tail)
      by (rewrite <- app_assoc; reflexivity).
    rewrite IH.
    destruct (lookup_all zero_recordContext lookupRecord srcs rest)
      as [rcs err].
    simpl. rewrite <- app_assoc. reflexivity.
Qed.


Lemma lookup_all_None (srcs : list (option ast_File))
    (names : list String.string) (rcs : list recordContext) :
  lookup_all zero_recordContext lookupRecord srcs names = (rcs, None) <->
  Forall (found_or_absent zero_recordContext lookupRecord srcs) names
  /\ rcs = map (record_of zero_recordContext lookupRecord srcs) names.
Proof.
  revert rcs. induction names as [|name rest IH]; intro rcs; simpl.
  - split.
    + intro H. injection H as <-. split; [constructor | reflexivity].
    + intros [_ ->]. reflexivity.
  - destruct (lookupSources lookupRecord zero_recordContext srcs name)
      as [rc [e|]] eqn:E; simpl.
    + split; [discriminate 1 |]. intros [H _]. inversion H as [|? ? H1 _].
      unfold found_or_absent in H1. rewrite E in H1. discriminate H1.
    + destruct (lookup_all zero_recordContext lookupRecord srcs rest)
        as [rcs' err] eqn:A.
      split.
      * intro H. injection H as <- ->.
        destruct (proj1 (IH rcs') eq_refl) as [F ->].
        split; [| unfold record_of; now rewrite E].
        constructor; [unfold found_or_absent; now rewrite E | exact F].
      * intros [F ->]. inversion F as [|? ? _ F']. subst.
        destruct (IH (map (record_of zero_recordContext lookupRecord srcs) rest))
          as [_ B].
        specialize (B (conj F' eq_refl)). injection B as -> ->.
        unfold record_of. now rewrite E.
Qed.

Lemma lookup_all_Some (srcs : list (option ast_File))
    (names : list String.string) (rcs : list recordContext) (e : error) :
  lookup_all zero_recordContext lookupRecord srcs names = (rcs, Some e) ->
  (length rcs <= length names)%nat
  /\ exists pre name post,
      names = pre ++ name :: post
      /\ Forall (found_or_absent zero_recordContext lookupRecord srcs) pre
      /\ snd (lookupSources lookupRecord zero_recordContext srcs name) = Some e.
Proof.
  revert rcs. induction names as [|name rest IH]; intro rcs; simpl;
    [discriminate 1 |].
  destruct (lookupSources lookupRecord zero_recordContext srcs name)
    as [rc [e0|]] eqn:E.
  - intro H. injection H as <- <-. split; [simpl; lia |].
    exists [], name, rest. rewrite E. repeat split. constructor.
  - destruct (lookup_all zero_recordContext lookupRecord srcs rest)
      as [rcs' err] eqn:A.
    intro H. injection H as <- ->.
    destruct (IH rcs' eq_refl) as (L & pre & n & post & -> & F & En).
    split; [simpl; lia |].
    exists (name :: pre), n, post. repeat split; [| exact En].
    constructor; [unfold found_or_absent; now rewrite E | exact F].
Qed.

(** [readTargets] in terms of [lookup_all]. *)
Lemma readTargets_lookup_all (g : genContext recordContext)
    (srcs : list (option ast_File)) (cfg : Config.t reader) :
  readTargets zero_recordContext lookupRecord g srcs cfg =
    let names := map Struct.Name (Config.Structs cfg) in
    let (recs, err) := lookup_all zero_recordContext lookupRecord srcs names in
    let records :=
      recs ++ repeat zero_recordContext (length names - length recs) in
    match err with
    | Some e =>
        Returns (mkGenContext (Pkg g) (Imports g) records (Results g), Some e)
    | None =>
        let (ress, err') :=
          lookup_all zero_recordContext lookupRecord srcs (Config.Results cfg) in
        Returns
          (mkGenContext (Pkg g) (Imports g) records
             (ress ++ repeat zero_recordContext
                        (length (Config.Results cfg) - length ress)),
           err')
    end.
Proof.
  unfold readTargets.
  pose proof (lookupTargets_lookup_all srcs
                (map Struct.Name (Config.Structs cfg)) [] []) as H1.
  pose proof (lookupTargets_lookup_all srcs (Config.Results cfg) [] []) as H2.
  simpl in H1, H2. rewrite !app_nil_r in H1, H2.
  rewrite length_map in H1 at 1. rewrite H1. simpl.
  destruct (lookup_all zero_recordContext lookupRecord srcs
              (map Struct.Name (Config.Structs cfg))) as [recs [e|]].
  - now rewrite app_nil_r.
  - rewrite H2.
    destruct (lookup_all zero_recordContext lookupRecord srcs
                (Config.Results cfg)) as [ress err'].
    now rewrite !app_nil_r.
Qed.

(** When [readTargets] returns without error, and what it has built then. *)
Lemma readTargets_None_iff (g g' : genContext recordContext)
    (srcs : list (option ast_File)) (cfg : Config.t reader) :
  readTargets zero_recordContext lookupRecord g srcs cfg = Returns (g', None)
  <->
  Forall (found_or_absent zero_recordContext lookupRecord srcs) (map Struct.Name (Config.Structs cfg))
  /\ Forall (found_or_absent zero_recordContext lookupRecord srcs) (Config.Results cfg)
  /\ g' = mkGenContext (Pkg g) (Imports g)
            (map (record_of zero_recordContext lookupRecord srcs) (map Struct.Name (Config.Structs cfg)))
            (map (record_of zero_recordContext lookupRecord srcs) (Config.Results cfg)).
Proof.
  rewrite readTargets_lookup_all. simpl.
  destruct (lookup_all zero_recordContext lookupRecord srcs
              (map Struct.Name (Config.Structs cfg))) as [recs [e|]] eqn:A.
  - split; [discriminate 1 |]. intros (F & _ & _).
    assert (B := proj2 (lookup_all_None srcs _ _) (conj F eq_refl)).
    congruence.
  - apply lookup_all_None in A as [F1 ->].
    destruct (lookup_all zero_recordContext lookupRecord srcs
                (Config.Results cfg)) as [ress [e|]] eqn:B.
    + split; [discriminate 1 |]. intros (_ & F & _).
      assert (C := proj2 (lookup_all_None srcs _ _) (conj F eq_refl)).
      congruence.
    + apply lookup_all_None in B as [F2 ->].
      rewrite !length_map, !Nat.sub_diag. simpl. rewrite !app_nil_r.
      split.
      * intro H. injection H as <-. auto.
      * intros (_ & _ & ->). reflexivity.
Qed.

(** X13 (readTargets, success).  [readTargets] returns without error exactly
    when no lookup fails, and then [Records] and [Results] hold, in the
    order of [cfg.Structs] and [cfg.Results], the record each name gives
    when looked up through the sources from the zero record; [Pkg] and
    [Imports] are kept. *)
Theorem readTargets_success (g g' : genContext recordContext)
    (srcs : list (option ast_File)) (cfg : Config.t reader) :
  readTargets zero_recordContext lookupRecord g srcs cfg = Returns (g', None)
  <->
  Forall (found_or_absent zero_recordContext lookupRecord srcs) (map Struct.Name (Config.Structs cfg))
  /\ Forall (found_or_absent zero_recordContext lookupRecord srcs) (Config.Results cfg)
  /\ g' = mkGenContext (Pkg g) (Imports g)
            (map (record_of zero_recordContext lookupRecord srcs) (map Struct.Name (Config.Structs cfg)))
            (map (record_of zero_recordContext lookupRecord srcs) (Config.Results cfg)).
Proof.
  split.
  - intro H. now apply readTargets_None_iff in H.
  - intros (F1 & F2 & ->). apply readTargets_None_iff. auto.
Qed.

(** X14 (readTargets, failure).  [readTargets] never panics.  When it
    returns an error, [Pkg] and [Imports] are kept, [Records] has one entry
    per struct, and the error is that of the first name whose lookup fails,
    structs first: either a struct, and then [Results] is left as it was, or
    a result, all structs having been looked up, and then [Results] has one
    entry per result. *)
Theorem readTargets_failure (g : genContext recordContext)
    (srcs : list (option ast_File)) (cfg : Config.t reader) :
  readTargets zero_recordContext lookupRecord g srcs cfg <> Panics
  /\ forall (g' : genContext recordContext) (e : error),
      readTargets zero_recordContext lookupRecord g srcs cfg
      = Returns (g', Some e) ->
      Pkg g' = Pkg g /\ Imports g' = Imports g
      /\ length (Records g') = length (Config.Structs cfg)
      /\ ((Results g' = Results g
           /\ exists pre name post,
               map Struct.Name (Config.Structs cfg) = pre ++ name :: post
               /\ Forall (found_or_absent zero_recordContext lookupRecord srcs) pre
               /\ snd (lookupSources lookupRecord zero_recordContext srcs name)
                  = Some e)
          \/ (Forall (found_or_absent zero_recordContext lookupRecord srcs)
                (map Struct.Name (Config.Structs cfg))
              /\ Records g'
                 = map (record_of zero_recordContext lookupRecord srcs) (map Struct.Name (Config.Structs cfg))
              /\ length (Results g') = length (Config.Results cfg)
              /\ exists pre name post,
                  Config.Results cfg = pre ++ name :: post
                  /\ Forall (found_or_absent zero_recordContext lookupRecord srcs) pre
                  /\ snd (lookupSources lookupRecord zero_recordContext srcs
                            name) = Some e)).
Proof.
  rewrite readTargets_lookup_all. simpl.
  destruct (lookup_all zero_recordContext lookupRecord srcs
              (map Struct.Name (Config.Structs cfg))) as [recs [e0|]] eqn:A.
  - split; [discriminate |]. intros g' e H. injection H as <- <-. simpl.
    apply lookup_all_Some in A as (L & W).
    rewrite length_map in L.
    repeat split.
    + rewrite length_app, repeat_length, length_map. lia.
    + left. split; [reflexivity | exact W].
  - destruct (lookup_all zero_recordContext lookupRecord srcs
                (Config.Results cfg)) as [ress err'] eqn:B.
    split; [discriminate |]. intros g' e H. injection H as <- ->. simpl.
    apply lookup_all_None in A as [F1 ->].
    apply lookup_all_Some in B as (L & W).
    rewrite !length_map, Nat.sub_diag. simpl. rewrite app_nil_r.
    repeat split.
    + now rewrite !length_map.
    + right. repeat split; try assumption.
      rewrite length_app, repeat_length. lia.
Qed.

Lemma lookupSources_no_error (srcs : list (option ast_File)) :
  (forall rc src name, snd (lookupRecord rc src name) = None) ->
  forall rc name, snd (lookupSources lookupRecord rc srcs name) = None.
Proof.
  intro H. induction srcs as [|src rest IH]; intros rc name; simpl;
    [reflexivity |].
  pose proof (H rc src name) as E.
  destruct (lookupRecord rc src name) as [[rc' ok] err]. simpl in E. subst err.
  destruct ok; [reflexivity | apply IH].
Qed.

(** X15 (readTargets, absent targets).  [readTargets] adds no error of its
    own: when [lookupRecord] returns no error, [readTargets] returns none,
    whether or not the names are found; and with no source at all every
    record is left at its zero value, without error. *)
Theorem readTargets_absent (g : genContext recordContext)
    (cfg : Config.t reader) :
  ((forall rc src name, snd (lookupRecord rc src name) = None) ->
   forall srcs, exists g',
     readTargets zero_recordContext lookupRecord g srcs cfg
     = Returns (g', None))
  /\ readTargets zero_recordContext lookupRecord g [] cfg
     = Returns
         (mkGenContext (Pkg g) (Imports g)
            (repeat zero_recordContext (length (Config.Structs cfg)))
            (repeat zero_recordContext (length (Config.Results cfg))),
          None).
Proof.
  split.
  - intros H srcs. eexists. apply readTargets_None_iff.
    split; [| split; [| reflexivity]];
      apply Forall_forall; intros name _; now apply lookupSources_no_error.
  - assert (Z : forall names : list String.string,
               map (record_of zero_recordContext lookupRecord []) names
               = repeat zero_recordContext (length names)).
    { induction names as [|name names IH]; simpl; [reflexivity |].
      now rewrite IH. }
    apply readTargets_None_iff.
    split; [| split]; try (apply Forall_forall; reflexivity).
    now rewrite !Z, length_map.
Qed.

(** *** Generate *)

Lemma readPackage_loop_success (srcs : list (option ast_File)) :
  forall pkg p : String.string,
    readPackage_loop File_Name errors_New pkg srcs = Returns (p, None) ->
    exists files,
      srcs = map Some files /\ p = last (map File_Name files) pkg.
Proof.
  induction srcs as [|src rest IH]; intros pkg p; simpl.
  - intro H. injection H as <-. exists []. split; reflexivity.
  - destruct src as [f|]; [| discriminate 1].
    destruct (negb (String.eqb pkg "")
              && negb (String.eqb pkg (File_Name f))); [discriminate 1 |].
    intro H. destruct (IH _ _ H) as (files & -> & ->).
    exists (f :: files). split; [reflexivity |].
    change (map File_Name (f :: files)) with (File_Name f :: map File_Name files).
    now rewrite last_cons_default.
Qed.




(** X16 (Generate, the write).  [Generate] writes at most once, as its last
    step: either it returns an error and the writer is untouched, or every
    step before the write succeeded and what it returns is what [Write]
    returned.  In that case what is written is the formatted output of the
    template run on a context whose [Pkg] is the package name of the last
    source, whose [Records] and [Results] are the records of [cfg.Structs]
    and [cfg.Results] in order, and whose [Imports] are those
    [selectImports] chooses for them. *)
Theorem Generate_writes_last (w w' : writer) (cfg : Config.t reader)
    (wd wd' : world) (err : option error) :
  Generate ReadFrom ParseFile File_Name zero_recordContext lookupRecord
    errors_New range_keys ExecuteTemplate imports_Process Write w cfg wd
  = Returns (w', err, wd') ->
  (w' = w /\ err <> None)
  \/ exists (files : list ast_File) (buf output : list byte),
      readSources ReadFrom ParseFile (Config.Sources cfg) wd
      = Returns (map Some files, None, wd')
      /\ ExecuteTemplate
           (selectImports range_keys
              (mkGenContext (last (map File_Name files) "") []
                 (map (record_of zero_recordContext lookupRecord
                         (map Some files))
                    (map Struct.Name (Config.Structs cfg)))
                 (map (record_of zero_recordContext lookupRecord
                         (map Some files))
                    (Config.Results cfg))))
         = (buf, None)
      /\ imports_Process buf = (output, None)
      /\ Write w output = (w', err).
Proof.
  unfold Generate.
  destruct (readSources ReadFrom ParseFile (Config.Sources cfg) wd)
    as [[[srcs [e|]] wd1]|] eqn:S; [| | discriminate 1].
  { intro H. injection H as <- <- <-. left. split; [reflexivity | discriminate]. }
  unfold readPackage.
  destruct (readPackage_loop File_Name errors_New "" srcs)
    as [[pkg [e|]]|] eqn:P; [| | discriminate 1].
  { intro H. injection H as <- <- <-. left. split; [reflexivity | discriminate]. }
  apply readPackage_loop_success in P as (files & -> & ->). simpl.
  destruct (readTargets zero_recordContext lookupRecord
              (mkGenContext (last (map File_Name files) "") [] [] [])
              (map Some files) cfg) as [[g2 [e|]]|] eqn:T;
    [| | discriminate 1].
  { intro H. injection H as <- <- <-. left. split; [reflexivity | discriminate]. }
  apply readTargets_None_iff in T as (_ & _ & ->). simpl.
  match goal with
  | |- context [ExecuteTemplate ?g] =>
      destruct (ExecuteTemplate g) as [buf [e|]] eqn:X
  end.
  { intro H. injection H as <- <- <-. left. split; [reflexivity | discriminate]. }
  destruct (imports_Process buf) as [output [e|]] eqn:F.
  { intro H. injection H as <- <- <-. left. split; [reflexivity | discriminate]. }
  destruct (Write w output) as [w2 err2] eqn:W.
  intro H. injection H as <- <- <-. right.
  exists files, buf, output. auto.
Qed.

(** X17 (Generate, mixed packages).  If the sources are read and parsed
    into files the first of which has a non-empty package name and another
    of which has a different one, [Generate] returns the error "input files
    must belong to the same package" and writes nothing. *)
Theorem Generate_mixed_packages (w : writer) (cfg : Config.t reader)
    (wd wd' : world) (f0 : ast_File) (files : list ast_File) :
  readSources ReadFrom ParseFile (Config.Sources cfg) wd
  = Returns (map Some (f0 :: files), None, wd') ->
  File_Name f0 <> "" ->
  Exists (fun f => File_Name f <> File_Name f0) files ->
  Generate ReadFrom ParseFile File_Name zero_recordContext lookupRecord
    errors_New range_keys ExecuteTemplate imports_Process Write w cfg wd
  = Returns
      (w, Some (errors_New "input files must belong to the same package"), wd').
Proof.
  intros S H0 Hx. unfold Generate. rewrite S. unfold readPackage. simpl.
  destruct (readPackage_loop_from (File_Name f0) files H0) as [[A _] | [_ B]].
  - exfalso. apply Exists_exists in Hx as (f & Hin & Hf).
    rewrite Forall_forall in A. now apply Hf, A.
  - now rewrite B.
Qed.


End GeneratorFacts.

(** ** The generator on stand-ins *)

Local Open Scope string_scope.


(** A failing reader between two good ones: the third source is not read. *)
Lemma readSources_failure_witness :
  @nil (option Stub.ast_File) = []
  /\ exists (pre : list Stub.reader) (r : Stub.reader) (post : list Stub.reader),
      [Some "a"; None; Some "b"] = pre ++ r :: post
      /\ (exists afs0 w0,
             readSources Stub.ReadFrom Stub.ParseFile pre 0%nat
             = Returns (afs0, None, w0)
             /\ ((exists content,
                     Stub.ReadFrom r w0 = (content, Some "read failed", 2%nat))
                 \/ (exists content af,
                        Stub.ReadFrom r w0 = (content, None, 2%nat)
                        /\ Stub.ParseFile content = (af, Some "read failed"))))
      /\ (forall post',
             readSources Stub.ReadFrom Stub.ParseFile (pre ++ r :: post') 0%nat
             = Returns ([], Some "read failed", 2%nat)).
Proof.
  apply (readSources_failure Stub.ReadFrom Stub.ParseFile
           [Some "a"; None; Some "b"] 0%nat 2%nat [] "read failed").
  reflexivity.
Defined.

(** Files of packages a, a, b. *)
Lemma readPackage_same_package_witness :
  Stub.File_Name "a" <> ""
  /\ Exists (fun f => Stub.File_Name f <> Stub.File_Name "a") ["a"; "b"]
  /\ readPackage Stub.File_Name Stub.errors_New
       (mkGenContext (recordContext := Stub.recordContext) "p" [] [] [])
       (map Some ["a"; "a"; "b"])
     = Returns
         (mkGenContext "p" [] [] [],
          Some "input files must belong to the same package").
Proof.
  assert (H : Stub.File_Name "a" <> "") by discriminate.
  split; [exact H |].
  destruct (readPackage_same_package Stub.File_Name Stub.errors_New
              (mkGenContext (recordContext := Stub.recordContext) "p" [] [] [])
              "a" ["a"; "b"] H) as [[A _] | [A B]].
  - exfalso. inversion A as [|? ? _ A']. inversion A' as [|? ? C _].
    discriminate C.
  - split; [exact A | exact B].
Defined.

(** Records and results together, the map gone through backwards. *)
Lemma selectImports_imports_witness :
  (forall m, Permutation.Permutation (Stub.range_keys m) (keys m))
  /\ NoDup
       (Imports
          (selectImports Stub.range_keys
             (mkGenContext (recordContext := Stub.recordContext) "p" ["old"]
                [None] [None])))
  /\ length
       (Imports
          (selectImports Stub.range_keys
             (mkGenContext (recordContext := Stub.recordContext) "p" ["old"]
                [None] [None]))) = 7%nat.
Proof.
  assert (H : forall m, Permutation.Permutation (Stub.range_keys m) (keys m)).
  { intro m. apply Permutation.Permutation_sym, Permutation.Permutation_rev. }
  split; [exact H |].
  destruct (selectImports_imports Stub.range_keys
              (mkGenContext (recordContext := Stub.recordContext) "p" ["old"]
                 [None] [None]) H) as (A & _ & B & _).
  split; [exact A | exact B].
Defined.

(** One source of package a; struct a is found, struct zz is not. *)
Lemma readTargets_success_witness :
  Forall (found_or_absent Stub.zero Stub.lookupRecord [Some "a"]) ["a"; "zz"]
  /\ Forall (found_or_absent Stub.zero Stub.lookupRecord [Some "a"]) ["a"]
  /\ mkGenContext "p" [] [Some "a"; None] [Some "a"]
     = mkGenContext "p" []
         (map (record_of Stub.zero Stub.lookupRecord [Some "a"]) ["a"; "zz"])
         (map (record_of Stub.zero Stub.lookupRecord [Some "a"]) ["a"]).
Proof.
  apply (proj1 (readTargets_success (reader := Stub.reader) Stub.zero
                  Stub.lookupRecord (mkGenContext "p" [] [] [])
                  (mkGenContext "p" [] [Some "a"; None] [Some "a"])
                  [Some "a"]
                  (Config.mk [] [Struct.mk "a"; Struct.mk "zz"] ["a"]))).
  reflexivity.
Defined.

(** A nil file makes the stand-in lookup fail on the first struct. *)
Lemma readTargets_failure_witness :
  readTargets (reader := Stub.reader) Stub.zero Stub.lookupRecord
    (mkGenContext "p" [] [] [Some "kept"]) [None]
    (Config.mk [] [Struct.mk "a"; Struct.mk "b"] ["a"]) <> Panics
  /\ length [@None String.string; None] = 2%nat.
Proof.
  destruct (readTargets_failure (reader := Stub.reader) Stub.zero Stub.lookupRecord
              (mkGenContext "p" [] [] [Some "kept"]) [None]
              (Config.mk [] [Struct.mk "a"; Struct.mk "b"] ["a"])) as [A B].
  split; [exact A |].
  destruct (B (mkGenContext "p" [] [None; None] [Some "kept"]) "nil file"
              eq_refl) as (_ & _ & L & _).
  exact L.
Defined.

(** A lookup that finds nothing and never fails. *)
Lemma readTargets_absent_witness :
  (forall (rc : Stub.recordContext) (src : option Stub.ast_File)
          (name : String.string),
      snd (Stub.lookupNothing rc src name) = None)
  /\ exists g',
      readTargets (reader := Stub.reader) Stub.zero Stub.lookupNothing
        (mkGenContext "p" [] [] []) [Some "a"]
        (Config.mk [] [Struct.mk "zz"] [])
      = Returns (g', None).
Proof.
  assert (H : forall (rc : Stub.recordContext) (src : option Stub.ast_File)
                     (name : String.string),
             snd (Stub.lookupNothing rc src name) = None) by reflexivity.
  split; [exact H |].
  apply (proj1 (readTargets_absent (reader := Stub.reader) Stub.zero
                  Stub.lookupNothing (mkGenContext "p" [] [] [])
                  (Config.mk [] [Struct.mk "zz"] [])) H).
Defined.

(** A full run on one source of package a. *)
Lemma Generate_writes_last_witness :
  (@nil (list byte) ++ [[x2e; x2e; x2e; x2e; x2e; x2e; x2e]] = []
   /\ @None Stub.error <> None)
  \/ exists (files : list Stub.ast_File) (buf output : list byte),
      readSources Stub.ReadFrom Stub.ParseFile [Some "a"] 0%nat
      = Returns (map Some files, None, 1%nat)
      /\ Stub.ExecuteTemplate
           (selectImports Stub.range_keys
              (mkGenContext (last (map Stub.File_Name files) "") []
                 (map (record_of Stub.zero Stub.lookupRecord (map Some files))
                    (map Struct.Name [Struct.mk "a"]))
                 (map (record_of Stub.zero Stub.lookupRecord (map Some files)) [])))
         = (buf, None)
      /\ Stub.imports_Process buf = (output, None)
      /\ Stub.Write [] output
         = ([] ++ [[x2e; x2e; x2e; x2e; x2e; x2e; x2e]], None).
Proof.
  apply (Generate_writes_last Stub.ReadFrom Stub.ParseFile Stub.File_Name Stub.zero
           Stub.lookupRecord Stub.errors_New Stub.range_keys
           Stub.ExecuteTemplate Stub.imports_Process Stub.Write
           [] ([] ++ [[x2e; x2e; x2e; x2e; x2e; x2e; x2e]])
           (Config.mk [Some "a"] [Struct.mk "a"] []) 0%nat 1%nat None).
  reflexivity.
Defined.

(** Sources of packages a and b. *)
Lemma Generate_mixed_packages_witness :
  Generate Stub.ReadFrom Stub.ParseFile Stub.File_Name Stub.zero Stub.lookupRecord
    Stub.errors_New Stub.range_keys Stub.ExecuteTemplate Stub.imports_Process
    Stub.Write [] (Config.mk [Some "a"; Some "b"] [Struct.mk "a"] []) 0%nat
  = Returns ([], Some "input files must belong to the same package", 2%nat).
Proof.
  apply (Generate_mixed_packages Stub.ReadFrom Stub.ParseFile Stub.File_Name
           Stub.zero Stub.lookupRecord Stub.errors_New Stub.range_keys
           Stub.ExecuteTemplate Stub.imports_Process Stub.Write []
           (Config.mk [Some "a"; Some "b"] [Struct.mk "a"] []) 0%nat 2%nat
           "a" ["b"]).
  - reflexivity.
  - discriminate.
  - apply Exists_cons_hd. discriminate.
Defined.

